(** * Raincloud plots: the grouping, scaling, option-merging and half-violin
      pipeline of [mpl_ext/raincloud/_raincloud.py]

    The two public functions [pyplot_cloud] and [pyplot_raincloud] are
    embedded stage by stage.  Python numbers are idealised as exact rationals
    ([Qc], canonical fractions, so equal numbers are equal terms); rounding of
    binary floating point is not modelled.  Exceptions are values of [exn];
    the stages that only compute run in the [result] monad, the entry points
    in [run], which also threads the log of calls made on the plotting
    surface. *)

From Stdlib Require Import QArith Qcanon.
From stdpp Require Import base option list numbers strings gmap sorting.

Local Open Scope string_scope.
Local Open Scope list_scope.
Local Open Scope stdpp_scope.
Local Open Scope nat_scope.

(** ** Python values that cross the boundary to matplotlib *)

#[warnings="-register-all"]
Inductive pyval :=
| PyNone
| PyBool (b : bool)
| PyNum (q : Qc)
| PyStr (s : string)
| PyList (l : list pyval)
| PyDict (d : list (string * pyval)).

(** ** Row labels *)

(** A label of a table's index: an integer (the default index numbers the
    rows from 0) or a string. *)
Inductive row_label :=
| RowInt (i : Z)
| RowStr (s : string).

Global Instance row_label_eq_dec : EqDecision row_label.
Proof. solve_decision. Defined.

(** ** Exceptions *)

Inductive exn :=
| KeyError (key : string)            (* a missing column or dictionary key *)
| KeyErrorRow (row : row_label)      (* [df.loc] on a row label that is absent *)
| IndexError
| ZeroDivisionError
| ValueError_max_empty               (* [max()] of an empty sequence *)
| ValueError_group_order
| ValueError_out_of_bounds (err_vals : gmap string Qc)
| ValueError_scale_clouds
| ValueError_box_kwargs
| ValueError_cloud_kwargs.

Inductive result (A : Type) :=
| Ok (a : A)
| Raise (e : exn).
Arguments Ok {A} a.
Arguments Raise {A} e.

Definition bind {A B} (m : result A) (k : A → result B) : result B :=
  match m with Ok a => k a | Raise e => Raise e end.

Notation "'let*' x ':=' m 'in' k" := (bind m (λ x, k))
  (at level 10, x name, m at level 100, k at level 200).

Global Instance result_ret : MRet result := λ A a, Ok a.
Global Instance result_bind : MBind result := λ A B f m, bind m f.

Definition is_ok {A} (r : result A) : bool :=
  match r with Ok _ => true | Raise _ => false end.

(** [d[k]] on a dictionary with string keys. *)
Definition getitem {V} (d : gmap string V) (k : string) : result V :=
  match d !! k with Some v => Ok v | None => Raise (KeyError k) end.

(** ** Python's [sorted] *)

(** [list.sort] computes every key first, in list order; it is stable, and
    with [reverse=True] it reverses the list, sorts it, and reverses the
    outcome, so that elements with equal keys keep their original order.
    Every stable sort returns the same list, so insertion from the right
    stands for the merge strategy of the interpreter. *)
Section py_sorted.
Context {A K : Type} (ltb : K → K → bool).

Fixpoint insert_by (x : K * A) (l : list (K * A)) : list (K * A) :=
  match l with
  | [] => [x]
  | y :: l' => if ltb y.1 x.1 then y :: insert_by x l' else x :: y :: l'
  end.

Definition stable_sort (l : list (K * A)) : list (K * A) :=
  foldr insert_by [] l.

Definition sort_decorated (reverse : bool) (l : list (K * A)) : list (K * A) :=
  let l := if reverse then rev l else l in
  let l := stable_sort l in
  if reverse then rev l else l.

Definition sorted (key : A → result K) (reverse : bool) (xs : list A)
  : result (list A) :=
  let* keys := mapM key xs in
  Ok (sort_decorated reverse (zip keys xs)).*2.
End py_sorted.

(** ** The table collaborator (pandas) *)

(** A table has an index of row labels, numeric columns and string (category)
    columns.  Row [i] is made of the [i]-th entry of the index and of every
    column; pandas keeps them all at one length.  Nothing makes the row
    labels distinct. *)
Record DataFrame := {
  df_index : list row_label;
  value_columns : gmap string (list Qc);
  label_columns : gmap string (list string)
}.

(** A pandas [Series]: the values picked from one column, the row labels of
    the rows they came from, and a name. *)
Record Series := {
  name : string;
  index : list row_label;
  values : list Qc
}.

(** [df[col].tolist()] *)
Definition column (df : DataFrame) (col : string) : result (list Qc) :=
  getitem (value_columns df) col.

(** The entries of a column in the rows that carry the row label [l], in
    stored order. *)
Definition rows_labelled {A} (index : list row_label) (xs : list A)
    (l : row_label) : list A :=
  (filter (λ lx, lx.1 = l) (zip index xs)).*2.

(** [df.loc[idx_vals, col]]: selection by row label.  Each requested label,
    in the order asked, answers with all the rows that carry it, each with
    its label and its value; a label that no row carries is a KeyError. *)
Definition loc_rows (df : DataFrame) (idx_vals : list row_label) (col : string)
  : result (list (row_label * Qc)) :=
  let* vals := column df col in
  let* picked := mapM (λ l, match rows_labelled (df_index df) vals l with
                            | [] => Raise (KeyErrorRow l)
                            | vs => Ok (pair l <$> vs)
                            end) idx_vals in
  Ok (concat picked).

(** [df.loc[idx_vals, col].tolist()] *)
Definition loc (df : DataFrame) (idx_vals : list row_label) (col : string)
  : result (list Qc) :=
  let* rows := loc_rows df idx_vals col in
  Ok rows.*2.

(** The distinct category labels in first-seen order. *)
Fixpoint discover (cats : list string) : list string :=
  match cats with
  | [] => []
  | c :: cats' => c :: filter (λ x, x ≠ c) (discover cats')
  end.

(** The row labels of the rows of one category, in stored order. *)
Definition rows_of (index : list row_label) (cats : list string) (c : string)
  : list row_label :=
  (filter (λ lc, lc.2 = c) (zip index cats)).*1.

(** [df.groupby(by = group_by, sort = False).groups.items()]: every category
    in first-seen order, with the row labels of its rows. *)
Definition groupby_groups (df : DataFrame) (group_by : string)
  : result (list (string * list row_label)) :=
  let* cats := getitem (label_columns df) group_by in
  Ok ((λ c, (c, rows_of (df_index df) cats c)) <$> discover cats).

(** ** Arguments dispatched on by their run-time type *)

Inductive group_order_arg :=
| GO_None
| GO_Dict (ordinals : gmap string Z)
| GO_Name (column_name : string)
| GO_Callable (f : Series → Z)
| GO_Other.

Inductive scale_clouds_arg :=
| SC_None
| SC_Str (s : string)
| SC_Dict (factors : gmap string Qc)
| SC_Other.

Inductive kwargs_arg :=
| KW_None
| KW_Dict (kw : gmap string pyval)
| KW_Other.

(** ** Stage 1: groups in plotting order (lines 136-188 and 410-462) *)

(** An insertion-ordered dictionary with string keys, as built by the two
    dictionary comprehensions. *)
Definition dict_getitem {V} (d : list (string * V)) (k : string) : result V :=
  match list_find (λ kv, kv.1 = k) d with
  | Some (_, kv) => Ok kv.2
  | None => Raise (KeyError k)
  end.

Definition group_lists (df : DataFrame) (col group_by : string)
  : result (list (string * list Qc)) :=
  let* gs := groupby_groups df group_by in
  mapM (λ g, let* vals := loc df g.2 col in Ok (g.1, vals)) gs.

Definition group_series (df : DataFrame) (col group_by : string)
  : result (list Series) :=
  let* gs := groupby_groups df group_by in
  mapM (λ g, let* rows := loc_rows df g.2 col in
             Ok {| name := g.1; index := rows.*1; values := rows.*2 |}) gs.

Definition extract_groups (df : DataFrame) (col : string)
    (group_by : option string) (group_order : group_order_arg)
    (reverse : bool) : result (list string * list (list Qc)) :=
  match group_by with
  | None =>
      let* vals := column df col in
      Ok ([col], [vals])
  | Some group_by =>
      match group_order with
      | GO_None =>
          let* plot_data := group_lists df col group_by in
          Ok (plot_data.*1, plot_data.*2)
      | GO_Dict group_order =>
          let* series := group_series df col group_by in
          let* plot_data := sorted Z.ltb (λ el, getitem group_order (name el))
                         reverse series in
          Ok (name <$> plot_data, values <$> plot_data)
      | GO_Name group_order =>
          if decide (group_order = group_by) then
            let* plot_data := group_lists df col group_by in
            let* label_names := sorted String.ltb Ok reverse plot_data.*1 in
            let* data := mapM (dict_getitem plot_data) label_names in
            Ok (label_names, data)
          else Raise ValueError_group_order
      | GO_Callable group_order =>
          let* series := group_series df col group_by in
          let* plot_data := sorted Z.ltb (λ el, Ok (group_order el)) reverse series in
          Ok (name <$> plot_data, values <$> plot_data)
      | GO_Other => Raise ValueError_group_order
      end
  end.

(** ** Stage 2: cloud scalars (lines 190-215 and 464-489) *)

Definition qnat (n : nat) : Qc := Qc_of_Z (Z.of_nat n).

(** [max(plot_data, key = len)]: the first of the longest lists. *)
Definition max_by_len {A} (l : list (list A)) : result (list A) :=
  match l with
  | [] => Raise ValueError_max_empty
  | x :: l' =>
      Ok (foldl (λ best y, if (length best <? length y)%nat then y else best) x l')
  end.

(** [a / b] on two lengths. *)
Definition truediv (a b : nat) : result Qc :=
  if (b =? 0)%nat then Raise ZeroDivisionError else Ok (qnat a / qnat b)%Qc.

Definition out_of_bounds (kv : string * Qc) : Prop :=
  (kv.2 < 0)%Qc ∨ (1 < kv.2)%Qc.

Global Instance out_of_bounds_dec kv : Decision (out_of_bounds kv).
Proof. unfold out_of_bounds. apply _. Defined.

Definition get_scalars (scale_clouds : scale_clouds_arg)
    (label_names : list string) (plot_data : list (list Qc))
  : result (list Qc) :=
  match scale_clouds with
  | SC_None => Ok ((λ _, 1%Qc) <$> plot_data)
  | SC_Str s =>
      if decide (s = "max") then
        let* longest := max_by_len plot_data in
        let scalars := length longest in
        mapM (λ el, if decide (length el = scalars) then Ok 1%Qc
                    else truediv (length el) scalars) plot_data
      else Raise ValueError_scale_clouds
  | SC_Dict scale_clouds =>
      let err_vals := filter out_of_bounds scale_clouds in
      if decide (size err_vals ≠ 0) then
        Raise (ValueError_out_of_bounds err_vals)
      else mapM (getitem scale_clouds) label_names
  | SC_Other => Raise ValueError_scale_clouds
  end.

(** ** Stage 3: the option mappings of the two drawing calls *)

Definition py_labels (label_names : list string) : pyval :=
  PyList (PyStr <$> label_names).
Definition py_data (plot_data : list (list Qc)) : pyval :=
  PyList ((λ el, PyList (PyNum <$> el)) <$> plot_data).

Definition black : pyval := PyDict [("color", PyStr "Black")].

Definition box_defaults : gmap string pyval :=
  {[ "widths" := PyNum (Q2Qc (2 # 10));
     "showfliers" := PyBool false;
     "showmeans" := PyBool true;
     "meanline" := PyBool true;
     "medianprops" := black;
     "boxprops" := black ]}.

Definition cloud_defaults : gmap string pyval :=
  {[ "showmeans" := PyBool false;
     "showmedians" := PyBool false;
     "showextrema" := PyBool false;
     "widths" := PyNum (Q2Qc (12 # 10)) ]}.

(** [{**a, **b}]: the later mapping wins; [∪] on [gmap] prefers its left
    operand. *)
Definition merge_kwargs (a b : gmap string pyval) : gmap string pyval := b ∪ a.

(** Lines 218-254 and 492-528. *)
Definition boxplot_kwargs (box_kwargs : kwargs_arg) (label_names : list string)
    (plot_data : list (list Qc)) (vert : bool) : result (gmap string pyval) :=
  match box_kwargs with
  | KW_None =>
      Ok {[ "labels" := py_labels label_names;
            "x" := py_data plot_data;
            "vert" := PyBool vert;
            "widths" := PyNum (Q2Qc (2 # 10));
            "showfliers" := PyBool false;
            "showmeans" := PyBool true;
            "meanline" := PyBool true;
            "medianprops" := black;
            "boxprops" := black ]}
  | KW_Dict box_kwargs =>
      Ok (merge_kwargs (merge_kwargs box_defaults box_kwargs)
            {[ "labels" := py_labels label_names;
               "x" := py_data plot_data;
               "vert" := PyBool vert ]})
  | KW_Other => Raise ValueError_box_kwargs
  end.

(** Lines 257-287 of [pyplot_cloud]. *)
Definition cloud_violin_kwargs (cloud_kwargs : kwargs_arg)
    (plot_data : list (list Qc)) (vert : bool) : result (gmap string pyval) :=
  match cloud_kwargs with
  | KW_None =>
      Ok {[ "dataset" := py_data plot_data;
            "vert" := PyBool vert;
            "showmeans" := PyBool false;
            "showmedians" := PyBool false;
            "showextrema" := PyBool false;
            "widths" := PyNum (Q2Qc (12 # 10)) ]}
  | KW_Dict cloud_kwargs =>
      Ok (merge_kwargs (merge_kwargs cloud_defaults cloud_kwargs)
            {[ "dataset" := py_data plot_data; "vert" := PyBool vert ]})
  | KW_Other => Raise ValueError_cloud_kwargs
  end.

(** Lines 531-557 of [pyplot_raincloud]. *)
Definition raincloud_violin_kwargs (cloud_kwargs : kwargs_arg)
    (plot_data : list (list Qc)) (vert : bool) : result (gmap string pyval) :=
  match cloud_kwargs with
  | KW_None =>
      Ok {[ "dataset" := py_data plot_data; "vert" := PyBool vert ]}
  | KW_Dict cloud_kwargs =>
      Ok (merge_kwargs (merge_kwargs cloud_defaults cloud_kwargs)
            {[ "dataset" := py_data plot_data; "vert" := PyBool vert ]})
  | KW_Other => Raise ValueError_cloud_kwargs
  end.

(** ** Stage 4: the half-violin transform (lines 289-301 and 561-573) *)

(** One violin body: the vertices of its first path and its fill colour. *)
Record Body := {
  vertices : list (Qc * Qc);
  facecolor : pyval
}.

(** [scale * where(v <= idx + 1, 0, v - idx - 1) + idx + 1] on one
    coordinate. *)
Definition half_violin_coord (idx : nat) (scale v : Qc) : Qc :=
  (scale * (if decide (v ≤ qnat idx + 1) then 0 else v - qnat idx - 1)
   + qnat idx + 1)%Qc.

(** The loop body: column 1 of the vertex array is read, rewritten and
    stored back. *)
Definition half_violin (idx : nat) (scale : Qc) (body : Body) : Body :=
  let width_vals := (vertices body).*2 in
  {| vertices := zip (vertices body).*1
                     (half_violin_coord idx scale <$> width_vals);
     facecolor := facecolor body |}.

(** ** The plotting surface (matplotlib's [Axes]) and the entry points *)

(** What the surface answers to each drawing call.  The handle of a box plot
    or of a scatter series is an opaque Python value; the violin handle is
    its ['bodies'] entry. *)
Record Axes := {
  ax_boxplot : gmap string pyval → pyval;
  ax_violinplot : gmap string pyval → list Body;
  ax_scatter : list Qc → list Qc → Qc → pyval → pyval
}.

(** A call received by the surface. *)
Inductive draw_call :=
| Boxplot (kw : gmap string pyval)
| Violinplot (kw : gmap string pyval)
| Scatter (x y : list Qc) (s : Qc) (c : pyval).

(** An entry point runs against the log of the calls made so far; a raised
    exception leaves the log as it was when it was raised. *)
Definition run (A : Type) : Type := list draw_call → list draw_call * result A.

Definition run_ret {A} (a : A) : run A := λ log, (log, Ok a).
Definition run_bind {A B} (m : run A) (k : A → run B) : run B := λ log,
  match m log with
  | (log', Ok a) => k a log'
  | (log', Raise e) => (log', Raise e)
  end.
Definition lift {A} (r : result A) : run A := λ log, (log, r).
Definition draw {A} (c : draw_call) (answer : A) : run A :=
  λ log, (log ++ [c], Ok answer).

Notation "'let+' x ':=' m 'in' k" := (run_bind m (λ x, k))
  (at level 10, x name, m at level 100, k at level 200).

Definition boxplot (ax : Axes) (kw : gmap string pyval) : run pyval :=
  draw (Boxplot kw) (ax_boxplot ax kw).
Definition violinplot (ax : Axes) (kw : gmap string pyval) : run (list Body) :=
  draw (Violinplot kw) (ax_violinplot ax kw).
Definition scatter (ax : Axes) (x y : list Qc) (s : Qc) (c : pyval) : run pyval :=
  draw (Scatter x y s c) (ax_scatter ax x y s c).

(** The loop of [pyplot_cloud] over [zip(count(), scalars, vp['bodies'])],
    started at [idx]. *)
Fixpoint cloud_loop (idx : nat) (items : list (Qc * Body)) : list Body :=
  match items with
  | [] => []
  | (scale, body) :: items' =>
      half_violin idx scale body :: cloud_loop (S idx) items'
  end.

(** The bodies are rewritten in place: those the loop did not reach stay as
    the surface made them. *)
Definition written_back (visited bodies : list Body) : list Body :=
  visited ++ drop (length visited) bodies.

Record CloudOutput := {
  cloud_box : pyval;
  cloud_cloud : list Body
}.

Definition pyplot_cloud (df : DataFrame) (col : string) (ax : Axes)
    (group_by : option string) (group_order : group_order_arg)
    (reverse : bool) (scale_clouds : scale_clouds_arg) (vert : bool)
    (box_kwargs cloud_kwargs : kwargs_arg) : run CloudOutput :=
  let+ groups := lift (extract_groups df col group_by group_order reverse) in
  let label_names := groups.1 in
  let plot_data := groups.2 in
  let+ scalars := lift (get_scalars scale_clouds label_names plot_data) in
  let+ bp_kw := lift (boxplot_kwargs box_kwargs label_names plot_data vert) in
  let+ bp := boxplot ax bp_kw in
  let+ vp_kw := lift (cloud_violin_kwargs cloud_kwargs plot_data vert) in
  let+ vp := violinplot ax vp_kw in
  run_ret {| cloud_box := bp;
             cloud_cloud := written_back (cloud_loop 0 (zip scalars vp)) vp |}.

(** The loop of [pyplot_raincloud]: the same rewrite, then one scatter call
    per group.  [uniform n size] is the [n]-th draw of [size] samples from
    [numpy.random.uniform(-0.15, 0.15)]. *)
Fixpoint raincloud_loop (ax : Axes) (uniform : nat → nat → list Qc)
    (plot_data : list (list Qc)) (idx : nat) (items : list (Qc * Body))
  : run (list Body * list (nat * pyval)) :=
  match items with
  | [] => run_ret ([], [])
  | (scale, body) :: items' =>
      let body := half_violin idx scale body in
      let+ data := lift (match plot_data !! idx with
                         | Some data => Ok data
                         | None => Raise IndexError
                         end) in
      let jitter := (λ u, u + (qnat idx + Q2Qc (75 # 100)))%Qc
                      <$> uniform idx (length data) in
      let+ sc_idx := scatter ax data jitter (Q2Qc (3 # 10)) (facecolor body) in
      let+ rest := raincloud_loop ax uniform plot_data (S idx) items' in
      run_ret (body :: rest.1, (idx, sc_idx) :: rest.2)
  end.

Record RaincloudOutput := {
  raincloud_box : pyval;
  raincloud_cloud : list Body;
  raincloud_scats : list (nat * pyval)
}.

Definition pyplot_raincloud (uniform : nat → nat → list Qc)
    (df : DataFrame) (col : string) (ax : Axes)
    (group_by : option string) (group_order : group_order_arg)
    (reverse : bool) (scale_clouds : scale_clouds_arg) (vert : bool)
    (box_kwargs cloud_kwargs : kwargs_arg) : run RaincloudOutput :=
  let+ groups := lift (extract_groups df col group_by group_order reverse) in
  let label_names := groups.1 in
  let plot_data := groups.2 in
  let+ scalars := lift (get_scalars scale_clouds label_names plot_data) in
  let+ bp_kw := lift (boxplot_kwargs box_kwargs label_names plot_data vert) in
  let+ bp := boxplot ax bp_kw in
  let+ vp_kw := lift (raincloud_violin_kwargs cloud_kwargs plot_data vert) in
  let+ vp := violinplot ax vp_kw in
  let+ out := raincloud_loop ax uniform plot_data 0 (zip scalars vp) in
  run_ret {| raincloud_box := bp;
             raincloud_cloud := written_back out.1 vp;
             raincloud_scats := out.2 |}.

(** The violin call found in a log, if one was made. *)
Fixpoint violin_call (log : list draw_call) : option (gmap string pyval) :=
  match log with
  | [] => None
  | Violinplot kw :: _ => Some kw
  | _ :: log' => violin_call log'
  end.

(** ** Names used by the statements *)

Definition qz (n : Z) : Qc := Qc_of_Z n.

(** The baseline of the group at zero-based position [idx]. *)
Definition baseline (idx : nat) : Qc := (qnat idx + 1)%Qc.

(** How matplotlib lays out the vertex array of a violin body.  A violin
    drawn with [vert = False] has the observations along x, column 0, and
    the density along y, column 1, on both sides of the position of the
    group; a violin drawn with [vert = True] has the two columns
    exchanged. *)
Definition density_axis (vert : bool) (xy : Qc * Qc) : Qc :=
  if vert then xy.1 else xy.2.
Definition data_axis (vert : bool) (xy : Qc * Qc) : Qc :=
  if vert then xy.2 else xy.1.

(** The size of the largest group. *)
Definition largest_size (plot_data : list (list Qc)) : nat :=
  max_list (length <$> plot_data).

(** A result with both sequences reversed. *)
Definition reversed (r : result (list string * list (list Qc)))
  : result (list string * list (list Qc)) :=
  match r with
  | Ok groups => Ok (rev groups.1, rev groups.2)
  | Raise e => Raise e
  end.

(** The strict order on sort keys that a comparison [ltb] induces on
    decorated elements. *)
Definition key_lt {A K} (ltb : K → K → bool) (x y : K * A) : Prop :=
  ltb x.1 y.1 = true.

(** [label] and [data] are one group of the table: the value column under
    its own name when there is no group column, otherwise what [df.loc]
    selects from the value column for the row labels of the rows whose
    category is [label]. *)
Definition same_group (df : DataFrame) (col : string)
    (group_by : option string) (label : string) (data : list Qc) : Prop :=
  match group_by with
  | None => label = col ∧ column df col = Ok data
  | Some group_by =>
      ∃ cats, label_columns df !! group_by = Some cats ∧ label ∈ cats ∧
              loc df (rows_of (df_index df) cats label) col = Ok data
  end.

(** [f] is the scale factor that the scaling mode gives to the group
    [label], [data]. *)
Definition factor_of (scale_clouds : scale_clouds_arg)
    (plot_data : list (list Qc)) (label : string) (data : list Qc) (f : Qc)
  : Prop :=
  match scale_clouds with
  | SC_None => f = 1%Qc
  | SC_Str _ =>
      f = if decide (length data = largest_size plot_data) then 1%Qc
          else (qnat (length data) / qnat (largest_size plot_data))%Qc
  | SC_Dict factors => factors !! label = Some f
  | SC_Other => False
  end.

(** A surface that draws nothing, and a jitter source that always answers
    zero: stand-ins for the collaborators in worked examples. *)
Definition blank_axes : Axes := {|
  ax_boxplot := λ _, PyNone;
  ax_violinplot := λ _, [];
  ax_scatter := λ _ _ _ _, PyNone
|}.
Definition no_jitter (n size : nat) : list Qc := replicate size 0%Qc.

(** Scale maps of the worked examples: two entries out of range; and one
    entry out of range under a key that labels no group. *)
Definition bad_factors : gmap string Qc :=
  {[ "A" := Q2Qc (12 # 10); "B" := Q2Qc (-1 # 2); "v" := Q2Qc (1 # 2) ]}.
Definition unused_key_factors : gmap string Qc :=
  {[ "v" := Q2Qc (1 # 2); "unused" := qz 2 ]}.

(** A surface that follows matplotlib's layout.  It answers every violin call
    with one body around position 1: four points, given as pairs of a
    density coordinate (between 1/2 and 3/2) and an observation coordinate
    (between 0 and 6), stored in the column order that the [vert] entry of
    the call asks for. *)
Definition violin_outline : list (Qc * Qc) :=
  [(qz 1, qz 0); (Q2Qc (1 # 2), qz 3); (qz 1, qz 6); (Q2Qc (3 # 2), qz 3)].
Definition oriented_body (vert : bool) : Body := {|
  vertices := (λ dv, if vert then (dv.1, dv.2) else (dv.2, dv.1))
                <$> violin_outline;
  facecolor := PyStr "C0"
|}.
Definition oriented_axes : Axes := {|
  ax_boxplot := λ _, PyNone;
  ax_violinplot := λ kw, match kw !! "vert" with
                         | Some (PyBool true) => [oriented_body true]
                         | _ => [oriented_body false]
                         end;
  ax_scatter := λ _ _ _ _, PyNone
|}.

(** A scale map that halves the cloud of the group "v", and what comes back
    from this surface under it: drawn vertically, where column 0 holds the
    density coordinates 1, 1/2, 1, 3/2; and drawn horizontally, where column
    1 holds them. *)
Definition half_scale : gmap string Qc := {[ "v" := Q2Qc (1 # 2) ]}.
Definition vertical_outcome : CloudOutput := {|
  cloud_box := PyNone;
  cloud_cloud :=
    [ {| vertices := [(qz 1, qz 1); (Q2Qc (1 # 2), qz 2);
                      (qz 1, Q2Qc (7 # 2)); (Q2Qc (3 # 2), qz 2)];
         facecolor := PyStr "C0" |} ]
|}.
Definition horizontal_outcome : CloudOutput := {|
  cloud_box := PyNone;
  cloud_cloud :=
    [ {| vertices := [(qz 0, qz 1); (qz 3, qz 1);
                      (qz 6, qz 1); (qz 3, Q2Qc (5 # 4))];
         facecolor := PyStr "C0" |} ]
|}.

(** Two groups without observations. *)
Definition two_empty_groups : list (list Qc) := [[]; []].

(** The default index of a table of [n] rows: the positions from 0. *)
Definition range_index (n : nat) : list row_label :=
  (λ i, RowInt (Z.of_nat i)) <$> seq 0 n.

(** The table of the ordering example. *)
Definition example_table : DataFrame := {|
  df_index := range_index 5;
  value_columns := {[ "v" := [qz 1; qz 2; qz 3; qz 4; qz 5] ]};
  label_columns := {[ "g" := ["b"; "b"; "a"; "a"; "a"] ]}
|}.


(** ** Names used by the further properties *)

(** A number between 0 and 1, both included. *)
Definition in_unit_interval (f : Qc) : Prop := (0 ≤ f)%Qc ∧ (f ≤ 1)%Qc.

(** The second coordinates of one scatter series: the samples drawn for the
    group at position [idx], shifted by [idx + 0.75] (lines 576-581). *)
Definition jitter (uniform : nat → nat → list Qc) (idx : nat)
    (data : list Qc) : list Qc :=
  (λ u, u + (qnat idx + Q2Qc (75 # 100)))%Qc <$> uniform idx (length data).

(** The scatter call of one pass through the loop (lines 584-589). *)
Definition scatter_of (uniform : nat → nat → list Qc) (idx : nat)
    (data : list Qc) (body : Body) : draw_call :=
  Scatter data (jitter uniform idx data) (Q2Qc (3 # 10)) (facecolor body).

Definition is_scatter (c : draw_call) : Prop :=
  match c with Scatter _ _ _ _ => True | _ => False end.

(** What [numpy.random.uniform(low = -0.15, high = 0.15, size = n)] promises:
    [n] samples, each within the two bounds. *)
Definition uniform_in_range (uniform : nat → nat → list Qc) : Prop :=
  ∀ n size,
    length (uniform n size) = size ∧
    Forall (λ u, (Q2Qc (-15 # 100) ≤ u)%Qc ∧ (u ≤ Q2Qc (15 # 100))%Qc)
      (uniform n size).

(** The values of [group_order] that the dispatch at lines 141-188 accepts
    when a group column is given, and those it rejects. *)
Definition recognised_group_order (group_by : string) (go : group_order_arg)
  : Prop :=
  match go with
  | GO_None | GO_Dict _ | GO_Callable _ => True
  | GO_Name n => n = group_by
  | GO_Other => False
  end.

Definition unrecognised_group_order (group_by : string) (go : group_order_arg)
  : Prop :=
  go = GO_Other ∨ ∃ n, go = GO_Name n ∧ n ≠ group_by.

(** The values of [scale_clouds] that the dispatch at lines 191-215
    rejects. *)
Definition unrecognised_scale_clouds (sc : scale_clouds_arg) : Prop :=
  sc = SC_Other ∨ ∃ s, sc = SC_Str s ∧ s ≠ "max".

(** The values stored in the rows whose category is [label], in stored
    order. *)
Definition values_of_label (cats : list string) (vals : list Qc)
    (label : string) : list Qc :=
  (filter (λ cv, cv.1 = label) (zip cats vals)).*2.

(** The order on integer sort keys, on decorated elements. *)
Definition key_le {A} (x y : Z * A) : Prop := (x.1 ≤ y.1)%Z.

(** Inputs of the worked instances: a surface that answers every violin call
    with two bodies, the groups of the example table in discovery order, a
    mapping of box overrides, and a table without rows. *)
Definition sample_body (k : Z) : Body := {|
  vertices := [(qz 0, qz k); (qz 1, qz (k + 2)); (qz 2, qz k)];
  facecolor := PyStr "C0"
|}.
Definition sample_axes : Axes := {|
  ax_boxplot := λ _, PyNone;
  ax_violinplot := λ _, [sample_body 1; sample_body 2];
  ax_scatter := λ _ _ _ _, PyNone
|}.
Definition example_groups : list string * list (list Qc) :=
  (["b"; "a"], [[qz 1; qz 2]; [qz 3; qz 4; qz 5]]).
Definition red_boxes : gmap string pyval :=
  {[ "widths" := PyNum (Q2Qc (1 # 2)); "labels" := PyList [] ]}.
Definition empty_table : DataFrame := {|
  df_index := [];
  value_columns := {[ "v" := [] ]};
  label_columns := {[ "g" := [] ]}
|}.

(** A table of three rows in which the first two share the row label 0. *)
Definition shared_labels_table : DataFrame := {|
  df_index := [RowInt 0; RowInt 0; RowInt 1];
  value_columns := {[ "v" := [qz 1; qz 2; qz 3] ]};
  label_columns := {[ "g" := ["a"; "b"; "a"] ]}
|}.

(** * Properties *)

(** ** The [result] monad *)

Lemma bind_ok {A B} (m : result A) (k : A → result B) b :
  bind m k = Ok b ↔ ∃ a, m = Ok a ∧ k a = Ok b.
Proof.
  destruct m as [a|e]; simpl; split.
  - eauto.
  - by intros (a' & [= <-] & ?).
  - done.
  - by intros (? & ? & ?).
Qed.

Lemma mapM_cons {A B} (f : A → result B) x l :
  mapM f (x :: l) = let* y := f x in let* k := mapM f l in Ok (y :: k).
Proof. reflexivity. Qed.

Lemma mapM_ok_Forall2 {A B} (f : A → result B) l k :
  mapM f l = Ok k ↔ Forall2 (λ x y, f x = Ok y) l k.
Proof.
  revert k. induction l as [|x l IH]; intros k.
  - split; [intros [= <-]; constructor | by inversion 1].
  - rewrite mapM_cons, bind_ok. split.
    + intros (y & Hy & Hk). apply bind_ok in Hk as (k' & Hk' & [= <-]).
      constructor; [done|]. by apply IH.
    + inversion 1 as [|? y ? k' Hy Hk]; subst. exists y. split; [done|].
      apply bind_ok. exists k'. split; [by apply IH | done].
Qed.

Lemma mapM_ok_length {A B} (f : A → result B) l k :
  mapM f l = Ok k → length k = length l.
Proof. rewrite mapM_ok_Forall2. intros H. symmetry. by eapply Forall2_length. Qed.

Lemma mapM_pure {A B} (g : A → B) l :
  mapM (λ x, Ok (g x)) l = Ok (g <$> l).
Proof. apply mapM_ok_Forall2, Forall2_fmap_r, Forall_Forall2_diag, Forall_true. done. Qed.

Lemma mapM_ext_in {A B} (f g : A → result B) l :
  (∀ x, x ∈ l → f x = g x) → mapM f l = mapM g l.
Proof.
  induction l as [|x l IH]; intros Hfg; [done|].
  rewrite !mapM_cons, Hfg by left. destruct (g x); simpl; [|done].
  rewrite IH; [done|]. intros y Hy. apply Hfg. by right.
Qed.

Lemma mapM_Ok {A} (l : list A) : mapM Ok l = Ok l.
Proof. rewrite (mapM_pure id). by rewrite list_fmap_id. Qed.

Lemma rev_reverse {A} (l : list A) : rev l = reverse l.
Proof. unfold reverse. apply rev_alt. Qed.

Lemma mapM_rev {A B} (f : A → result B) l k :
  mapM f l = Ok k → mapM f (rev l) = Ok (rev k).
Proof. rewrite !mapM_ok_Forall2, !rev_reverse. apply Forall2_reverse. Qed.

Lemma getitem_ok {V} (d : gmap string V) k v :
  getitem d k = Ok v ↔ d !! k = Some v.
Proof.
  unfold getitem. destruct (d !! k); split; intros H; by simplify_eq.
Qed.

Lemma NoDup_fmap_inj_on {A B} (f : A → B) (l : list A) x y :
  NoDup (f <$> l) → x ∈ l → y ∈ l → f x = f y → x = y.
Proof.
  intros Hl (i & Hi)%list_elem_of_lookup (j & Hj)%list_elem_of_lookup Hxy.
  assert (i = j) as ->.
  { eapply NoDup_lookup; [exact Hl| |]; rewrite list_lookup_fmap.
    - by rewrite Hi.
    - rewrite Hj. simpl. by rewrite Hxy. }
  congruence.
Qed.

Lemma Forall_fmap_Forall2 {A B C} (P : B → C → Prop) (f : A → B) (g : A → C) l :
  Forall (λ x, P (f x) (g x)) l → Forall2 P (f <$> l) (g <$> l).
Proof. intros H. apply Forall2_fmap. by apply Forall_Forall2_diag. Qed.

(** ** Python's [sorted] *)

Section sorted_facts.
Context {A K : Type} (ltb : K → K → bool).

Lemma insert_by_perm (x : K * A) l : insert_by ltb x l ≡ₚ x :: l.
Proof.
  induction l as [|y l IH]; simpl; [done|].
  destruct (ltb y.1 x.1); [|done]. by rewrite IH, Permutation_swap.
Qed.

Lemma stable_sort_perm (l : list (K * A)) : stable_sort ltb l ≡ₚ l.
Proof.
  induction l as [|x l IH]; simpl; [done|]. by rewrite insert_by_perm, IH.
Qed.

Lemma sort_decorated_perm reverse (l : list (K * A)) :
  sort_decorated ltb reverse l ≡ₚ l.
Proof.
  unfold sort_decorated. destruct reverse; [|apply stable_sort_perm].
  rewrite rev_reverse, reverse_Permutation, stable_sort_perm.
  by rewrite rev_reverse, reverse_Permutation.
Qed.

(** Sorting only reorders. *)
Lemma sorted_perm key reverse (xs ys : list A) :
  sorted ltb key reverse xs = Ok ys → ys ≡ₚ xs.
Proof.
  unfold sorted. intros (keys & Hkeys & [= <-])%bind_ok.
  rewrite sort_decorated_perm, snd_zip; [done|].
  apply mapM_ok_length in Hkeys. lia.
Qed.

Hypothesis ltb_irrefl : ∀ a, ltb a a = false.
Hypothesis ltb_trans :
  ∀ a b c, ltb a b = true → ltb b c = true → ltb a c = true.
Hypothesis ltb_total : ∀ a b, a ≠ b → ltb a b = true ∨ ltb b a = true.

Lemma insert_by_sorted (x : K * A) l :
  x.1 ∉ l.*1 → StronglySorted (key_lt ltb) l →
  StronglySorted (key_lt ltb) (insert_by ltb x l).
Proof.
  induction l as [|y l IH]; simpl; intros Hx Hl.
  - repeat constructor.
  - apply not_elem_of_cons in Hx as [Hxy Hx].
    apply StronglySorted_inv in Hl as [Hl Hy].
    destruct (ltb y.1 x.1) eqn:Hyx.
    + constructor; [by apply IH|]. rewrite insert_by_perm. by constructor.
    + assert (key_lt ltb x y) as Hlt.
      { destruct (ltb_total x.1 y.1) as [?|?]; [done|done|congruence]. }
      constructor; [by constructor|]. constructor; [done|].
      eapply Forall_impl; [exact Hy|]. intros z Hz. by eapply ltb_trans.
Qed.

Lemma stable_sort_sorted (l : list (K * A)) :
  NoDup l.*1 → StronglySorted (key_lt ltb) (stable_sort ltb l).
Proof.
  induction l as [|x l IH]; simpl; [constructor|].
  intros [Hx Hl]%NoDup_cons. apply insert_by_sorted; [|by apply IH].
  by rewrite stable_sort_perm.
Qed.

(** With pairwise distinct keys the descending sort is the ascending one
    read backwards. *)
Lemma sort_decorated_reverse (l : list (K * A)) :
  NoDup l.*1 → sort_decorated ltb true l = rev (sort_decorated ltb false l).
Proof.
  intros Hl. unfold sort_decorated. f_equal.
  apply (StronglySorted_unique_strong (key_lt ltb)).
  - unfold key_lt. intros x y _ _ Hxy Hyx.
    pose proof (ltb_trans _ _ _ Hxy Hyx) as H. by rewrite ltb_irrefl in H.
  - apply stable_sort_sorted.
    by rewrite rev_reverse, fmap_reverse, reverse_Permutation.
  - by apply stable_sort_sorted.
  - by rewrite !stable_sort_perm, rev_reverse, reverse_Permutation.
Qed.

Lemma keys_NoDup (key : A → result K) (xs : list A) (keys : list K) :
  Forall2 (λ x k, key x = Ok k) xs keys →
  NoDup xs →
  (∀ x y k, x ∈ xs → y ∈ xs → key x = Ok k → key y = Ok k → x = y) →
  NoDup keys.
Proof.
  induction 1 as [|x k xs keys Hk Hks IH]; intros Hnd Hinj; [constructor|].
  apply NoDup_cons in Hnd as [Hx Hnd]. constructor.
  - intros (i & Hi)%list_elem_of_lookup.
    destruct (Forall2_lookup_r _ _ _ _ _ Hks Hi) as (y & Hy & Hky).
    apply list_elem_of_lookup_2 in Hy.
    assert (x = y) as -> by (eapply Hinj; [by left|by right|done..]).
    done.
  - apply IH; [done|]. intros y z k' Hy Hz. apply Hinj; by right.
Qed.

Lemma sorted_reverse (key : A → result K) (xs : list A) :
  NoDup xs →
  (∀ x y k, x ∈ xs → y ∈ xs → key x = Ok k → key y = Ok k → x = y) →
  sorted ltb key true xs
  = match sorted ltb key false xs with
    | Ok ys => Ok (rev ys)
    | Raise e => Raise e
    end.
Proof.
  intros Hnd Hinj. unfold sorted.
  destruct (mapM key xs) as [keys|e] eqn:Hkeys; [|done].
  cbn [bind]. f_equal. pose proof (mapM_ok_length _ _ _ Hkeys) as Hlen.
  rewrite sort_decorated_reverse.
  - by rewrite !rev_reverse, fmap_reverse.
  - rewrite fst_zip by lia. apply mapM_ok_Forall2 in Hkeys.
    by eapply keys_NoDup.
Qed.
End sorted_facts.

(** The comparisons used as sort orders are strict total orders. *)

Lemma string_compare_refl a : String.compare a a = Eq.
Proof.
  induction a as [|c a IH]; simpl; [done|].
  unfold Ascii.compare. by rewrite N.compare_refl.
Qed.

Lemma string_ltb_irrefl a : String.ltb a a = false.
Proof. unfold String.ltb. by rewrite string_compare_refl. Qed.

Lemma string_ltb_le a b : String.ltb a b = true → String.le a b ∧ a ≠ b.
Proof.
  unfold String.ltb, String.le, String.leb.
  destruct (String.compare a b) eqn:Hc; try done.
  intros _. split; [done|]. intros ->. by rewrite string_compare_refl in Hc.
Qed.

Lemma string_le_ltb a b : String.le a b → a ≠ b → String.ltb a b = true.
Proof.
  unfold String.ltb, String.le, String.leb.
  destruct (String.compare a b) eqn:Hc; try done.
  intros _ Hne. by apply String.compare_eq_iff in Hc.
Qed.

Lemma string_ltb_trans a b c :
  String.ltb a b = true → String.ltb b c = true → String.ltb a c = true.
Proof.
  intros [Hab Hne]%string_ltb_le [Hbc Hne']%string_ltb_le.
  apply string_le_ltb; [by etrans|]. intros ->.
  apply Hne. by apply (anti_symm String.le).
Qed.

Lemma string_ltb_total a b :
  a ≠ b → String.ltb a b = true ∨ String.ltb b a = true.
Proof.
  intros Hne. destruct (total String.le a b).
  - left. by apply string_le_ltb.
  - right. by apply string_le_ltb.
Qed.

Lemma Z_ltb_trans a b c :
  Z.ltb a b = true → Z.ltb b c = true → Z.ltb a c = true.
Proof. rewrite !Z.ltb_lt. lia. Qed.

Lemma Z_ltb_total (a b : Z) : a ≠ b → Z.ltb a b = true ∨ Z.ltb b a = true.
Proof. rewrite !Z.ltb_lt. lia. Qed.

(** ** Grouping *)

Lemma elem_of_discover cats x : x ∈ discover cats ↔ x ∈ cats.
Proof.
  induction cats as [|c cats IH]; simpl; [done|].
  rewrite !elem_of_cons, list_elem_of_filter, IH. split.
  - intros [->|[_ Hin]]; [by left | by right].
  - intros [->|Hin]; [by left|].
    destruct (decide (x = c)) as [->|]; [by left | by right].
Qed.

Lemma NoDup_discover cats : NoDup (discover cats).
Proof.
  induction cats as [|c cats IH]; simpl; constructor.
  - rewrite list_elem_of_filter. by intros [? _].
  - by apply NoDup_filter.
Qed.

Lemma groupby_groups_ok df gb gs :
  groupby_groups df gb = Ok gs →
  ∃ cats, label_columns df !! gb = Some cats ∧
          gs = (λ c, (c, rows_of (df_index df) cats c)) <$> discover cats.
Proof.
  unfold groupby_groups. intros (cats & Hc%getitem_ok & [= <-])%bind_ok. eauto.
Qed.

Lemma group_lists_ok df col gb plot_data :
  group_lists df col gb = Ok plot_data →
  ∃ cats, label_columns df !! gb = Some cats ∧
          plot_data.*1 = discover cats ∧
          Forall (λ g, same_group df col (Some gb) g.1 g.2) plot_data.
Proof.
  unfold group_lists.
  intros (gs & (cats & Hcats & ->)%groupby_groups_ok & Hm)%bind_ok.
  exists cats. split; [done|]. apply mapM_ok_Forall2 in Hm.
  rewrite Forall2_fmap_l in Hm. split.
  - apply list_eq_Forall2. rewrite Forall2_fmap_l. apply Forall2_flip.
    eapply Forall2_impl; [exact Hm|]. simpl.
    intros c g (vals & _ & [= <-])%bind_ok. done.
  - eapply Forall2_Forall_r; [exact Hm|]. apply Forall_forall.
    intros c Hc g. simpl. intros (vals & Hv & [= <-])%bind_ok.
    apply (proj1 (elem_of_discover _ _)) in Hc. exists cats. simpl in *. auto.
Qed.

Lemma group_series_ok df col gb series :
  group_series df col gb = Ok series →
  ∃ cats, label_columns df !! gb = Some cats ∧
          name <$> series = discover cats ∧
          Forall (λ el, same_group df col (Some gb) (name el) (values el))
            series.
Proof.
  unfold group_series.
  intros (gs & (cats & Hcats & ->)%groupby_groups_ok & Hm)%bind_ok.
  exists cats. split; [done|]. apply mapM_ok_Forall2 in Hm.
  rewrite Forall2_fmap_l in Hm. split.
  - apply list_eq_Forall2. rewrite Forall2_fmap_l. apply Forall2_flip.
    eapply Forall2_impl; [exact Hm|]. simpl.
    intros c g (vals & _ & [= <-])%bind_ok. done.
  - eapply Forall2_Forall_r; [exact Hm|]. apply Forall_forall.
    intros c Hc g. simpl. intros (rows & Hv & [= <-])%bind_ok.
    apply (proj1 (elem_of_discover _ _)) in Hc. exists cats. simpl in *.
    split; [done|]. split; [done|]. unfold loc. by rewrite Hv.
Qed.

Lemma dict_getitem_ok {V} (d : list (string * V)) k :
  k ∈ d.*1 → ∃ v, dict_getitem d k = Ok v.
Proof.
  intros ([k' v] & -> & Hin)%list_elem_of_fmap. unfold dict_getitem.
  destruct (list_find _ d) as [[i [k'' v']]|] eqn:Hf; [by eexists|].
  apply list_find_None in Hf. rewrite Forall_forall in Hf.
  by destruct (Hf _ Hin).
Qed.

Lemma dict_getitem_elem {V} (d : list (string * V)) k v :
  dict_getitem d k = Ok v → (k, v) ∈ d.
Proof.
  unfold dict_getitem.
  destruct (list_find _ d) as [[i [k' v']]|] eqn:Hf; [|done].
  intros [= <-]. apply list_find_Some in Hf as (Hi & Hk & _).
  simpl in *. subst. by eapply list_elem_of_lookup_2.
Qed.

(** Whatever the ordering mode, position [i] of the labels and position [i]
    of the data lists are one group of the table. *)
Lemma extract_groups_aligned df col group_by group_order reverse
    label_names plot_data :
  extract_groups df col group_by group_order reverse
  = Ok (label_names, plot_data) →
  Forall2 (same_group df col group_by) label_names plot_data.
Proof.
  unfold extract_groups. destruct group_by as [gb|].
  - destruct group_order as [|ordinals|n|f|].
    + intros (pd & (cats & _ & _ & Hpd)%group_lists_ok & [= <- <-])%bind_ok.
      by apply Forall_fmap_Forall2.
    + intros (series & (cats & _ & _ & Hs)%group_series_ok & Hsort)%bind_ok.
      apply bind_ok in Hsort as (pd & Hperm%sorted_perm & [= <- <-]).
      apply Forall_fmap_Forall2. by rewrite Hperm.
    + destruct (decide (n = gb)) as [->|]; [|done].
      intros (pd & (cats & _ & _ & Hpd)%group_lists_ok & Hsort)%bind_ok.
      apply bind_ok in Hsort as (labels & _ & Hdata).
      apply bind_ok in Hdata as (data & Hdata%mapM_ok_Forall2 & [= <- <-]).
      eapply Forall2_impl; [exact Hdata|]. simpl.
      intros l d Hld%dict_getitem_elem.
      rewrite Forall_forall in Hpd. apply (Hpd _ Hld).
    + intros (series & (cats & _ & _ & Hs)%group_series_ok & Hsort)%bind_ok.
      apply bind_ok in Hsort as (pd & Hperm%sorted_perm & [= <- <-]).
      apply Forall_fmap_Forall2. by rewrite Hperm.
    + done.
  - intros (vals & Hvals & [= <- <-])%bind_ok. by repeat constructor.
Qed.

(** ** Scaling relative to the largest group *)

Lemma max_by_len_length {A} (x : list A) (l : list (list A)) :
  length (foldl (λ best y, if (length best <? length y)%nat then y else best)
            x l)
  = length x `max` max_list (length <$> l).
Proof.
  revert x. induction l as [|y l IH]; intros x; [simpl; lia|].
  change (length (foldl (λ best y,
                     if (length best <? length y)%nat then y else best)
                    (if (length x <? length y)%nat then y else x) l)
          = length x `max` (length y `max` max_list (length <$> l))).
  rewrite IH. destruct (Nat.ltb_spec (length x) (length y)); lia.
Qed.

Lemma max_by_len_ok (plot_data : list (list Qc)) :
  plot_data ≠ [] →
  ∃ longest, max_by_len plot_data = Ok longest ∧
             longest ∈ plot_data ∧
             length longest = largest_size plot_data.
Proof.
  destruct plot_data as [|x l]; [done|]. intros _. eexists. split; [done|].
  split; [|apply max_by_len_length].
  revert x. induction l as [|y l IH]; intros x; simpl; [by left|].
  destruct (length x <? length y)%nat.
  - right. apply IH.
  - specialize (IH x). apply elem_of_cons in IH as [->|?].
    + by left.
    + by do 2 right.
Qed.

Lemma size_le_largest (plot_data : list (list Qc)) el :
  el ∈ plot_data → length el ≤ largest_size plot_data.
Proof.
  intros Hel. apply max_list_elem_of_le, list_elem_of_fmap. by exists el.
Qed.

(** A division is reached only with a positive denominator. *)
Lemma truediv_below_largest (plot_data : list (list Qc)) el :
  el ∈ plot_data → length el ≠ largest_size plot_data →
  0 < largest_size plot_data ∧
  truediv (length el) (largest_size plot_data)
  = Ok (qnat (length el) / qnat (largest_size plot_data))%Qc.
Proof.
  intros Hel Hne. pose proof (size_le_largest _ _ Hel).
  assert (0 < largest_size plot_data) as Hpos by lia.
  split; [done|]. unfold truediv.
  destruct (Nat.eqb_spec (largest_size plot_data) 0); [lia | done].
Qed.

Lemma get_scalars_max (label_names : list string) (plot_data : list (list Qc)) :
  plot_data ≠ [] →
  get_scalars (SC_Str "max") label_names plot_data
  = Ok ((λ el, if decide (length el = largest_size plot_data) then 1%Qc
               else (qnat (length el) / qnat (largest_size plot_data))%Qc)
          <$> plot_data).
Proof.
  intros Hne. unfold get_scalars. rewrite decide_True by done.
  destruct (max_by_len_ok _ Hne) as (longest & Hmax & _ & Hlen).
  rewrite Hmax. cbn [bind]. rewrite Hlen, <-mapM_pure. apply mapM_ext_in. intros el Hel.
  destruct (decide _); [done|]. by apply truediv_below_largest.
Qed.

(** C5: in mode "max", with [m] the size of the largest group, every group of
    size [m] gets the factor 1 and every other group [g] the factor
    [|g| / m]; groups of sizes 200, 200 and 50 get 1, 1 and 0.25. *)
Theorem max_scaling_relative_to_largest :
  (∀ label_names plot_data, plot_data ≠ [] →
     get_scalars (SC_Str "max") label_names plot_data
     = Ok ((λ el, if decide (length el = largest_size plot_data) then 1%Qc
                  else (qnat (length el) / qnat (largest_size plot_data))%Qc)
             <$> plot_data)) ∧
  (∀ label_names g1 g2 g3,
     length g1 = 200 → length g2 = 200 → length g3 = 50 →
     get_scalars (SC_Str "max") label_names [g1; g2; g3]
     = Ok [1%Qc; 1%Qc; Q2Qc (1 # 4)]).
Proof.
  split; [apply get_scalars_max|].
  intros label_names g1 g2 g3 H1 H2 H3. rewrite get_scalars_max by done.
  unfold largest_size. simpl. rewrite H1, H2, H3. simpl.
  do 4 f_equal. apply Qc_is_canon. vm_compute. reflexivity.
Qed.

Lemma max_scaling_relative_to_largest_witness :
  get_scalars (SC_Str "max") ["a"; "b"; "c"]
    [replicate 200 (qz 7); replicate 200 (qz 8); replicate 50 (qz 9)]
  = Ok [1%Qc; 1%Qc; Q2Qc (1 # 4)].
Proof.
  apply (proj2 max_scaling_relative_to_largest); reflexivity.
Defined.

(** C10: in mode "max" on a non-empty sequence of groups, [max] succeeds, the
    division [|g| / m] is reached only for groups with [|g| ≠ m], where [m]
    is positive, so the stage returns its factors; and when every group is
    empty every factor is 1. *)
Theorem max_scaling_never_divides_by_zero
    (label_names : list string) (plot_data : list (list Qc)) :
  plot_data ≠ [] →
  ∃ longest,
    max_by_len plot_data = Ok longest ∧
    (∀ el, el ∈ plot_data → length el ≠ length longest →
       0 < length longest ∧
       truediv (length el) (length longest)
       = Ok (qnat (length el) / qnat (length longest))%Qc) ∧
    is_ok (get_scalars (SC_Str "max") label_names plot_data) = true ∧
    ((∀ el, el ∈ plot_data → el = []) →
       length longest = 0 ∧
       get_scalars (SC_Str "max") label_names plot_data
       = Ok ((λ _, 1%Qc) <$> plot_data)).
Proof.
  intros Hne. destruct (max_by_len_ok _ Hne) as (longest & Hmax & Hin & Hlen).
  exists longest. split; [done|]. rewrite Hlen. split; [|split].
  - intros el Hel Hsize. by apply truediv_below_largest.
  - by rewrite get_scalars_max.
  - intros Hempty. rewrite <-Hlen, (Hempty _ Hin). split; [done|].
    rewrite get_scalars_max by done. f_equal. apply list_fmap_ext.
    intros i el Hel. apply list_elem_of_lookup_2 in Hel.
    rewrite decide_True; [done|].
    rewrite <-Hlen, (Hempty _ Hin), (Hempty _ Hel). done.
Qed.

Lemma max_scaling_never_divides_by_zero_witness :
  ∃ longest : list Qc,
    max_by_len two_empty_groups = Ok longest ∧
    (∀ el, el ∈ two_empty_groups → length el ≠ length longest →
       0 < length longest ∧
       truediv (length el) (length longest)
       = Ok (qnat (length el) / qnat (length longest))%Qc) ∧
    is_ok (get_scalars (SC_Str "max") ["a"; "b"] two_empty_groups) = true ∧
    ((∀ el, el ∈ two_empty_groups → el = []) →
       length longest = 0 ∧
       get_scalars (SC_Str "max") ["a"; "b"] two_empty_groups
       = Ok ((λ _, 1%Qc) <$> two_empty_groups)).
Proof.
  apply (max_scaling_never_divides_by_zero ["a"; "b"] two_empty_groups).
  discriminate.
Defined.

Lemma get_scalars_aligned scale_clouds label_names plot_data scalars :
  length label_names = length plot_data →
  get_scalars scale_clouds label_names plot_data = Ok scalars →
  length scalars = length plot_data ∧
  ∀ i label data,
    label_names !! i = Some label → plot_data !! i = Some data →
    ∃ f, scalars !! i = Some f ∧ factor_of scale_clouds plot_data label data f.
Proof.
  intros Hlen. destruct scale_clouds as [|s|factors|]; simpl.
  - intros [= <-]. rewrite length_fmap. split; [done|].
    intros i label data _ Hd. exists 1%Qc. by rewrite list_lookup_fmap, Hd.
  - destruct (decide (s = "max")) as [->|]; [|done]. intros Hs.
    assert (plot_data ≠ []) as Hne by (by intros ->).
    change (get_scalars (SC_Str "max") label_names plot_data = Ok scalars) in Hs.
    rewrite get_scalars_max in Hs by done. injection Hs as <-.
    rewrite length_fmap. split; [done|]. intros i label data _ Hd.
    eexists. by rewrite list_lookup_fmap, Hd.
  - destruct (decide _); [done|]. intros Hs%mapM_ok_Forall2.
    split; [by rewrite <-(Forall2_length _ _ _ Hs)|].
    intros i label data Hl _.
    destruct (Forall2_lookup_l _ _ _ _ _ Hs Hl) as (f & Hf & Hget%getitem_ok).
    eauto.
  - done.
Qed.

(** ** The [reverse] flag *)

Lemma reverse_by_label df col gb :
  extract_groups df col (Some gb) (GO_Name gb) true
  = reversed (extract_groups df col (Some gb) (GO_Name gb) false).
Proof.
  unfold extract_groups. destruct (decide (gb = gb)) as [_|]; [|done].
  destruct (group_lists df col gb) as [pd|e] eqn:Hpd; [|reflexivity].
  cbn [bind]. apply group_lists_ok in Hpd as (cats & _ & Hkeys & _).
  rewrite (sorted_reverse String.ltb
             string_ltb_irrefl string_ltb_trans string_ltb_total).
  - destruct (sorted String.ltb Ok false pd.*1) as [labels|e] eqn:Hs;
      [|reflexivity].
    cbn [bind].
    assert (∃ data, mapM (dict_getitem pd) labels = Ok data) as [data Hdata].
    { apply sorted_perm in Hs.
      assert (Forall (λ l, ∃ v, dict_getitem pd l = Ok v) labels) as Hall.
      { apply Forall_forall. intros l Hl. rewrite Hs in Hl.
        by apply dict_getitem_ok. }
      clear Hs.
      induction Hall as [|l labels [v Hv] _ [data IH]]; [by exists []|].
      exists (v :: data). by rewrite mapM_cons, Hv, IH. }
    by rewrite (mapM_rev _ _ _ Hdata), Hdata.
  - rewrite Hkeys. apply NoDup_discover.
  - by intros x y k _ _ [= ->] [= ->].
Qed.

Lemma reverse_by_key df col gb (key : Series → result Z) :
  (∀ series x y k, group_series df col gb = Ok series →
     x ∈ series → y ∈ series → key x = Ok k → key y = Ok k → x = y) →
  (let* series := group_series df col gb in
   let* plot_data := sorted Z.ltb key true series in
   Ok (name <$> plot_data, values <$> plot_data))
  = reversed
     (let* series := group_series df col gb in
      let* plot_data := sorted Z.ltb key false series in
      Ok (name <$> plot_data, values <$> plot_data)).
Proof.
  intros Hinj.
  destruct (group_series df col gb) as [series|e] eqn:Hs; [|reflexivity].
  cbn [bind].
  pose proof (group_series_ok _ _ _ _ Hs) as (cats & _ & Hnames & _).
  rewrite (sorted_reverse Z.ltb Z.ltb_irrefl Z_ltb_trans Z_ltb_total).
  - destruct (sorted Z.ltb key false series) as [pd|e]; [|reflexivity].
    cbn [bind reversed fst snd]. by rewrite !rev_reverse, !fmap_reverse.
  - apply (NoDup_fmap_1 name). rewrite Hnames. apply NoDup_discover.
  - intros x y k. by apply Hinj.
Qed.

(** C2, as the code has it: with a group column, the [reverse] flag is
    ignored when no ordering is given (discovery order either way); with
    ordering by label it yields exactly the reversed label and data
    sequences; with an explicit map or a key function it yields exactly the
    reversed sequences whenever the sort keys of the groups are pairwise
    distinct. *)
Theorem reverse_flag_by_mode df col gb :
  extract_groups df col (Some gb) GO_None true
  = extract_groups df col (Some gb) GO_None false ∧
  extract_groups df col (Some gb) (GO_Name gb) true
  = reversed (extract_groups df col (Some gb) (GO_Name gb) false) ∧
  (∀ ordinals,
     (∀ cats l1 l2 k, label_columns df !! gb = Some cats →
        l1 ∈ cats → l2 ∈ cats →
        ordinals !! l1 = Some k → ordinals !! l2 = Some k → l1 = l2) →
     extract_groups df col (Some gb) (GO_Dict ordinals) true
     = reversed (extract_groups df col (Some gb) (GO_Dict ordinals) false)) ∧
  (∀ f,
     (∀ series s1 s2, group_series df col gb = Ok series →
        s1 ∈ series → s2 ∈ series → f s1 = f s2 → s1 = s2) →
     extract_groups df col (Some gb) (GO_Callable f) true
     = reversed (extract_groups df col (Some gb) (GO_Callable f) false)).
Proof.
  split; [done|]. split; [apply reverse_by_label|]. split.
  - intros ordinals Hinj. apply reverse_by_key.
    intros series x y k Hs Hx Hy Hkx%getitem_ok Hky%getitem_ok.
    apply group_series_ok in Hs as (cats & Hcats & Hnames & _).
    apply (NoDup_fmap_inj_on name series);
      [rewrite Hnames; apply NoDup_discover|done..|].
    apply (Hinj cats _ _ k); try done.
    + apply elem_of_discover. rewrite <-Hnames. by apply list_elem_of_fmap_2.
    + apply elem_of_discover. rewrite <-Hnames. by apply list_elem_of_fmap_2.
  - intros f Hinj. apply reverse_by_key.
    intros series x y k Hs Hx Hy [= Hkx] [= Hky].
    eapply Hinj; [done..|congruence].
Qed.

Lemma reverse_flag_by_mode_witness :
  extract_groups example_table "v" (Some "g")
    (GO_Dict {[ "a" := 2%Z; "b" := 1%Z ]}) true
  = reversed (extract_groups example_table "v" (Some "g")
                (GO_Dict {[ "a" := 2%Z; "b" := 1%Z ]}) false) ∧
  extract_groups example_table "v" (Some "g")
    (GO_Callable (λ el, Z.of_nat (length (values el)))) true
  = reversed (extract_groups example_table "v" (Some "g")
                (GO_Callable (λ el, Z.of_nat (length (values el)))) false).
Proof.
  split.
  - apply (proj1 (proj2 (proj2 (reverse_flag_by_mode example_table "v" "g")))).
    intros cats l1 l2 k _ _ _ H1 H2.
    apply lookup_insert_Some in H1 as [[<- <-]|[_ H1]];
      apply lookup_insert_Some in H2 as [[<- ?]|[_ H2]];
      try apply lookup_singleton_Some in H1 as [<- <-];
      try apply lookup_singleton_Some in H2 as [<- ?];
      done.
  - apply (proj2 (proj2 (proj2 (reverse_flag_by_mode example_table "v" "g")))).
    intros series s1 s2 Hs. vm_compute in Hs. injection Hs as <-.
    intros H1 H2.
    apply elem_of_cons in H1 as [->|H1];
      [|apply list_elem_of_singleton in H1 as ->];
      (apply elem_of_cons in H2 as [->|H2];
       [|apply list_elem_of_singleton in H2 as ->]);
      (reflexivity || (intros Hlen; vm_compute in Hlen; discriminate)).
Defined.

(** The claim as written fails on the table of the ordering example: with no
    ordering the flag changes nothing, and with an explicit map that gives
    both labels the same ordinal the two groups keep their discovery order
    under both settings. *)
Lemma reverse_flag_not_uniform :
  extract_groups example_table "v" (Some "g") GO_None true
  ≠ reversed (extract_groups example_table "v" (Some "g") GO_None false) ∧
  extract_groups example_table "v" (Some "g")
    (GO_Dict {[ "a" := 1%Z; "b" := 1%Z ]}) true
  ≠ reversed (extract_groups example_table "v" (Some "g")
                (GO_Dict {[ "a" := 1%Z; "b" := 1%Z ]}) false).
Proof. split; vm_compute; discriminate. Qed.

(** ** Ordering modes on the example table *)

(** C6: on the table whose group column is b, b, a, a, a and whose value
    column is 1, 2, 3, 4, 5, without reversal: no ordering gives the labels
    b, a; ordering by the group column gives a, b; the map a to 2, b to 1
    gives b, a; each time with the data lists of those groups at the same
    positions. *)
Theorem ordering_modes_example :
  extract_groups example_table "v" (Some "g") GO_None false
  = Ok (["b"; "a"], [[qz 1; qz 2]; [qz 3; qz 4; qz 5]]) ∧
  extract_groups example_table "v" (Some "g") (GO_Name "g") false
  = Ok (["a"; "b"], [[qz 3; qz 4; qz 5]; [qz 1; qz 2]]) ∧
  extract_groups example_table "v" (Some "g")
    (GO_Dict {[ "a" := 2%Z; "b" := 1%Z ]}) false
  = Ok (["b"; "a"], [[qz 1; qz 2]; [qz 3; qz 4; qz 5]]).
Proof. repeat split; vm_compute; reflexivity. Qed.

(** ** The entry points up to the first drawing call *)

Section entry_points.
Context (uniform : nat → nat → list Qc) (df : DataFrame) (col : string)
  (ax : Axes) (group_by : option string) (group_order : group_order_arg)
  (reverse : bool) (scale_clouds : scale_clouds_arg) (vert : bool)
  (box_kwargs cloud_kwargs : kwargs_arg).

Lemma extract_fails e log :
  extract_groups df col group_by group_order reverse = Raise e →
  pyplot_cloud df col ax group_by group_order reverse scale_clouds vert
    box_kwargs cloud_kwargs log = (log, Raise e) ∧
  pyplot_raincloud uniform df col ax group_by group_order reverse
    scale_clouds vert box_kwargs cloud_kwargs log = (log, Raise e).
Proof.
  intros H. unfold pyplot_cloud, pyplot_raincloud, run_bind, lift.
  by rewrite H.
Qed.

Lemma get_scalars_fails groups e log :
  extract_groups df col group_by group_order reverse = Ok groups →
  get_scalars scale_clouds groups.1 groups.2 = Raise e →
  pyplot_cloud df col ax group_by group_order reverse scale_clouds vert
    box_kwargs cloud_kwargs log = (log, Raise e) ∧
  pyplot_raincloud uniform df col ax group_by group_order reverse
    scale_clouds vert box_kwargs cloud_kwargs log = (log, Raise e).
Proof.
  intros H1 H2. unfold pyplot_cloud, pyplot_raincloud, run_bind, lift.
  by rewrite H1, H2.
Qed.

(** A call reaches the surface only after both computing stages returned. *)
Lemma drawing_stage_reached log :
  (pyplot_cloud df col ax group_by group_order reverse scale_clouds vert
    box_kwargs cloud_kwargs log).1 ≠ log
  ∨ (pyplot_raincloud uniform df col ax group_by group_order reverse
    scale_clouds vert box_kwargs cloud_kwargs log).1 ≠ log →
  ∃ groups scalars,
    extract_groups df col group_by group_order reverse = Ok groups ∧
    get_scalars scale_clouds groups.1 groups.2 = Ok scalars.
Proof.
  intros Hlog.
  destruct (extract_groups df col group_by group_order reverse)
    as [groups|e] eqn:H1.
  - destruct (get_scalars scale_clouds groups.1 groups.2)
      as [scalars|e] eqn:H2; [by eauto|].
    destruct (get_scalars_fails _ _ log H1 H2) as [Hc Hr].
    rewrite Hc, Hr in Hlog. by destruct Hlog.
  - destruct (extract_fails _ log H1) as [Hc Hr].
    rewrite Hc, Hr in Hlog. by destruct Hlog.
Qed.

Lemma pyplot_cloud_violin_call groups scalars bp_kw vp_kw :
  extract_groups df col group_by group_order reverse = Ok groups →
  get_scalars scale_clouds groups.1 groups.2 = Ok scalars →
  boxplot_kwargs box_kwargs groups.1 groups.2 vert = Ok bp_kw →
  cloud_violin_kwargs cloud_kwargs groups.2 vert = Ok vp_kw →
  violin_call (pyplot_cloud df col ax group_by group_order reverse scale_clouds vert
    box_kwargs cloud_kwargs []).1 = Some vp_kw.
Proof.
  intros H1 H2 H3 H4.
  unfold pyplot_cloud, run_bind, lift, boxplot, violinplot, draw, run_ret.
  by rewrite H1, H2, H3, H4.
Qed.
End entry_points.

(** The scatter loop only appends to the log. *)
Lemma raincloud_loop_log ax uniform plot_data idx items log :
  ∃ calls,
    (raincloud_loop ax uniform plot_data idx items log).1 = log ++ calls.
Proof.
  revert idx log.
  induction items as [|[scale body] items IH]; intros idx log; simpl.
  - exists []. by rewrite app_nil_r.
  - unfold run_bind, lift at 1. destruct (plot_data !! idx) as [data|]; simpl.
    + destruct (IH (S idx)
                  (log ++ [Scatter data
                             ((λ u, u + (qnat idx + Q2Qc (75 # 100)))%Qc
                                <$> uniform idx (length data))
                             (Q2Qc (3 # 10)) (facecolor body)]))
        as [calls Hc].
      unfold scatter, draw.
      destruct (raincloud_loop _ _ _ _ _ _) as [log' [r|e]];
        simpl in *; subst; eexists; by rewrite <-app_assoc.
    + exists []. by rewrite app_nil_r.
Qed.

Lemma pyplot_raincloud_violin_call uniform df col ax group_by group_order
    reverse scale_clouds vert box_kwargs cloud_kwargs
    groups scalars bp_kw vp_kw :
  extract_groups df col group_by group_order reverse = Ok groups →
  get_scalars scale_clouds groups.1 groups.2 = Ok scalars →
  boxplot_kwargs box_kwargs groups.1 groups.2 vert = Ok bp_kw →
  raincloud_violin_kwargs cloud_kwargs groups.2 vert = Ok vp_kw →
  violin_call (pyplot_raincloud uniform df col ax group_by group_order reverse
                 scale_clouds vert box_kwargs cloud_kwargs []).1
  = Some vp_kw.
Proof.
  intros H1 H2 H3 H4.
  unfold pyplot_raincloud, run_bind, lift, boxplot, violinplot, draw, run_ret.
  rewrite H1, H2, H3, H4.
  match goal with
  | |- context [raincloud_loop ?a ?u ?p ?i ?it ?l] =>
      destruct (raincloud_loop_log a u p i it l) as [calls Hc];
      destruct (raincloud_loop a u p i it l) as [log' [out|e]]
  end; simpl in Hc; subst log'; reflexivity.
Qed.

(** ** The options of the violin call *)

(** With caller overrides, and with an override that is no mapping, the two
    entry points build the same options. *)
Lemma violin_kwargs_agree_on_overrides kw plot_data vert :
  cloud_violin_kwargs (KW_Dict kw) plot_data vert
  = raincloud_violin_kwargs (KW_Dict kw) plot_data vert ∧
  cloud_violin_kwargs KW_Other plot_data vert
  = raincloud_violin_kwargs KW_Other plot_data vert.
Proof. done. Qed.

(** C1 does not hold of the code: called on the example table without a group
    column and without cloud overrides, [pyplot_cloud] hands the violin call
    showmeans, showmedians and showextrema set to False and widths 1.2, while
    [pyplot_raincloud] hands it none of the four, so the two option mappings
    differ. *)
Theorem violin_defaults_missing_in_raincloud uniform ax vert :
  ∃ kw_cloud kw_raincloud,
    violin_call (pyplot_cloud example_table "v" ax None GO_None false SC_None
                   vert KW_None KW_None []).1 = Some kw_cloud ∧
    violin_call (pyplot_raincloud uniform example_table "v" ax None GO_None
                   false SC_None vert KW_None KW_None []).1
    = Some kw_raincloud ∧
    kw_cloud !! "showmeans" = Some (PyBool false) ∧
    kw_cloud !! "showmedians" = Some (PyBool false) ∧
    kw_cloud !! "showextrema" = Some (PyBool false) ∧
    kw_cloud !! "widths" = Some (PyNum (Q2Qc (12 # 10))) ∧
    kw_raincloud !! "showmeans" = None ∧
    kw_raincloud !! "showmedians" = None ∧
    kw_raincloud !! "showextrema" = None ∧
    kw_raincloud !! "widths" = None ∧
    kw_cloud ≠ kw_raincloud.
Proof.
  eexists _, _. split; [|split].
  - by eapply pyplot_cloud_violin_call.
  - by eapply pyplot_raincloud_violin_call.
  - repeat split; try (vm_compute; reflexivity).
    intros Heq. apply (f_equal (λ kw, kw !! "widths")) in Heq.
    vm_compute in Heq. discriminate.
Qed.

(** ** Alignment of labels, data lists and scale factors *)

(** C7: whenever an entry point makes a drawing call, both computing stages
    have returned; the labels, the data lists and the scale factors have the
    same length; and at every position the label, the data list and the
    factor belong to one group of the table: the data list is what [df.loc]
    selects for the row labels of the rows of that label, and the factor is
    the one the scaling mode gives to that label and that data list. *)
Theorem sequences_aligned uniform df col ax group_by group_order reverse
    scale_clouds vert box_kwargs cloud_kwargs log :
  (pyplot_cloud df col ax group_by group_order reverse scale_clouds vert
     box_kwargs cloud_kwargs log).1 ≠ log
  ∨ (pyplot_raincloud uniform df col ax group_by group_order reverse
       scale_clouds vert box_kwargs cloud_kwargs log).1 ≠ log →
  ∃ label_names plot_data scalars,
    extract_groups df col group_by group_order reverse
    = Ok (label_names, plot_data) ∧
    get_scalars scale_clouds label_names plot_data = Ok scalars ∧
    length label_names = length plot_data ∧
    length plot_data = length scalars ∧
    ∀ i label, label_names !! i = Some label →
      ∃ data f, plot_data !! i = Some data ∧ scalars !! i = Some f ∧
                same_group df col group_by label data ∧
                factor_of scale_clouds plot_data label data f.
Proof.
  intros ([label_names plot_data] & scalars & He & Hs)%drawing_stage_reached.
  simpl in Hs. exists label_names, plot_data, scalars.
  pose proof (extract_groups_aligned _ _ _ _ _ _ _ He) as Hal.
  pose proof (Forall2_length _ _ _ Hal) as Hlen.
  destruct (get_scalars_aligned _ _ _ _ Hlen Hs) as [Hlen' Hf].
  repeat split; try done.
  intros i label Hl.
  destruct (Forall2_lookup_l _ _ _ _ _ Hal Hl) as (data & Hd & Hsame).
  destruct (Hf _ _ _ Hl Hd) as (f & ? & ?). eauto 10.
Qed.

Lemma sequences_aligned_witness :
  ∃ label_names plot_data scalars,
    extract_groups example_table "v" (Some "g") (GO_Name "g") false
    = Ok (label_names, plot_data) ∧
    get_scalars (SC_Str "max") label_names plot_data = Ok scalars ∧
    length label_names = length plot_data ∧
    length plot_data = length scalars ∧
    ∀ i label, label_names !! i = Some label →
      ∃ data f, plot_data !! i = Some data ∧ scalars !! i = Some f ∧
                same_group example_table "v" (Some "g") label data ∧
                factor_of (SC_Str "max") plot_data label data f.
Proof.
  apply (sequences_aligned no_jitter example_table "v" blank_axes (Some "g")
           (GO_Name "g") false (SC_Str "max") false KW_None KW_None []).
  left. vm_compute. discriminate.
Defined.

(** ** Validation of an explicit scale map *)

Lemma get_scalars_out_of_bounds factors label_names plot_data k v :
  factors !! k = Some v → out_of_bounds (k, v) →
  get_scalars (SC_Dict factors) label_names plot_data
  = Raise (ValueError_out_of_bounds (filter out_of_bounds factors)).
Proof.
  intros Hk Hv. simpl. rewrite decide_True; [done|].
  intros Hsize%map_size_empty_iff.
  assert (filter out_of_bounds factors !! k = Some v) as Hf
    by (by apply map_lookup_filter_Some).
  by rewrite Hsize in Hf.
Qed.

Lemma get_scalars_in_bounds factors label_names plot_data :
  (∀ k v, factors !! k = Some v → ¬ out_of_bounds (k, v)) →
  get_scalars (SC_Dict factors) label_names plot_data
  = mapM (getitem factors) label_names.
Proof.
  intros Hall. simpl. rewrite decide_False; [done|]. intros Hsize. apply Hsize.
  apply map_size_empty_iff, map_empty. intros k.
  apply map_lookup_filter_None. right. intros v Hv. by apply Hall.
Qed.

(** The first label without an entry is the one the lookup fails on. *)
Lemma mapM_getitem_missing {V} (d : gmap string V) (label_names : list string) :
  (∃ l, l ∈ label_names ∧ d !! l = None) →
  ∃ l, l ∈ label_names ∧ d !! l = None ∧
       mapM (getitem d) label_names = Raise (KeyError l).
Proof.
  induction label_names as [|l0 ls IH]; intros (l & Hl & Hnone).
  - by apply elem_of_nil in Hl.
  - rewrite mapM_cons. unfold getitem at 1.
    destruct (d !! l0) as [v|] eqn:H0.
    + destruct IH as (l' & Hl' & Hnone' & Hm).
      { apply elem_of_cons in Hl as [->|Hl]; [congruence|eauto]. }
      exists l'. split; [by right|]. split; [done|]. cbn [bind].
      by rewrite Hm.
    + exists l0. split; [by left|]. done.
Qed.

Lemma bad_factors_offenders :
  filter out_of_bounds bad_factors
  = {[ "A" := Q2Qc (12 # 10); "B" := Q2Qc (-1 # 2) ]}.
Proof. vm_compute. reflexivity. Qed.

(** C4, as the code has it: when the scale map has a value outside [0,1], the
    scaling stage raises an error that carries exactly the offending entries
    of the map, all of them; both entry points raise it without having made
    any drawing call, provided the grouping stage returned; when the
    grouping stage raised, its error is the one raised, also before any
    drawing call. *)
Theorem out_of_bounds_map_rejected uniform df col ax group_by group_order
    reverse factors vert box_kwargs cloud_kwargs log :
  (∃ k v, factors !! k = Some v ∧ out_of_bounds (k, v)) →
  let err_vals := filter out_of_bounds factors in
  let e := match extract_groups df col group_by group_order reverse with
           | Ok _ => ValueError_out_of_bounds err_vals
           | Raise e => e
           end in
  (∀ k v, err_vals !! k = Some v
          ↔ factors !! k = Some v ∧ out_of_bounds (k, v)) ∧
  (∀ label_names plot_data,
     get_scalars (SC_Dict factors) label_names plot_data
     = Raise (ValueError_out_of_bounds err_vals)) ∧
  pyplot_cloud df col ax group_by group_order reverse (SC_Dict factors) vert
    box_kwargs cloud_kwargs log = (log, Raise e) ∧
  pyplot_raincloud uniform df col ax group_by group_order reverse
    (SC_Dict factors) vert box_kwargs cloud_kwargs log = (log, Raise e).
Proof.
  intros (k & v & Hk & Hv). cbn zeta. split; [|split].
  - intros k' v'. apply map_lookup_filter_Some.
  - intros label_names plot_data. by eapply get_scalars_out_of_bounds.
  - destruct (extract_groups df col group_by group_order reverse)
      as [groups|e] eqn:He.
    + eapply get_scalars_fails; [done|]. by eapply get_scalars_out_of_bounds.
    + by apply extract_fails.
Qed.

Lemma out_of_bounds_map_rejected_witness :
  (∃ k v, bad_factors !! k = Some v ∧ out_of_bounds (k, v)) ∧
  pyplot_cloud example_table "v" blank_axes None GO_None false
    (SC_Dict bad_factors) false KW_None KW_None []
  = ([], Raise (ValueError_out_of_bounds (filter out_of_bounds bad_factors))) ∧
  pyplot_raincloud no_jitter example_table "v" blank_axes None GO_None false
    (SC_Dict bad_factors) false KW_None KW_None []
  = ([], Raise (ValueError_out_of_bounds (filter out_of_bounds bad_factors))).
Proof.
  assert (∃ k v, bad_factors !! k = Some v ∧ out_of_bounds (k, v)) as Hex.
  { exists "A", (Q2Qc (12 # 10)).
    split; [vm_compute; reflexivity | right; vm_compute; reflexivity]. }
  split; [exact Hex|].
  destruct (out_of_bounds_map_rejected no_jitter example_table "v" blank_axes
              None GO_None false bad_factors false KW_None KW_None [] Hex)
    as (_ & _ & Hc & Hr).
  split; [exact Hc | exact Hr].
Defined.

(** The claim as written fails when the grouping stage raises first: with an
    ordering map that lacks the label b, the call ends in the key error of
    the ordering, whose message names no entry of the scale map. *)
Lemma out_of_bounds_map_not_reported :
  (∃ k v, bad_factors !! k = Some v ∧ out_of_bounds (k, v)) ∧
  (pyplot_cloud example_table "v" blank_axes (Some "g")
     (GO_Dict {[ "a" := 1%Z ]}) false (SC_Dict bad_factors) false
     KW_None KW_None []).2 = Raise (KeyError "b") ∧
  ∀ err_vals,
    (pyplot_cloud example_table "v" blank_axes (Some "g")
       (GO_Dict {[ "a" := 1%Z ]}) false (SC_Dict bad_factors) false
       KW_None KW_None []).2 ≠ Raise (ValueError_out_of_bounds err_vals).
Proof.
  split; [|split].
  - exists "A", (Q2Qc (12 # 10)).
    split; [vm_compute; reflexivity | right; vm_compute; reflexivity].
  - vm_compute. reflexivity.
  - intros err_vals. vm_compute. discriminate.
Qed.

(** C8: every entry of the scale map is validated, also one whose key labels
    no group: such an entry out of range makes the scaling stage raise, with
    that entry among those reported; and on the example table without a
    group column, a map whose only entry out of range sits under a key that
    is never looked up makes both entry points raise before drawing. *)
Theorem unused_out_of_bounds_key_rejected :
  (∀ label_names plot_data factors k v,
     k ∉ label_names → factors !! k = Some v → out_of_bounds (k, v) →
     ∃ err_vals,
       get_scalars (SC_Dict factors) label_names plot_data
       = Raise (ValueError_out_of_bounds err_vals) ∧
       err_vals !! k = Some v) ∧
  (∃ label_names plot_data,
     extract_groups example_table "v" None GO_None false
     = Ok (label_names, plot_data) ∧
     ("unused" ∉ label_names) ∧
     unused_key_factors !! "unused" = Some (qz 2) ∧
     out_of_bounds ("unused", qz 2) ∧
     (∀ l, l ∈ label_names →
        ∃ f, unused_key_factors !! l = Some f ∧ ¬ out_of_bounds (l, f)) ∧
     ∀ uniform ax vert box_kwargs cloud_kwargs log,
       pyplot_cloud example_table "v" ax None GO_None false
         (SC_Dict unused_key_factors) vert box_kwargs cloud_kwargs log
       = (log, Raise (ValueError_out_of_bounds {[ "unused" := qz 2 ]})) ∧
       pyplot_raincloud uniform example_table "v" ax None GO_None false
         (SC_Dict unused_key_factors) vert box_kwargs cloud_kwargs log
       = (log, Raise (ValueError_out_of_bounds {[ "unused" := qz 2 ]}))).
Proof.
  split.
  - intros label_names plot_data factors k v _ Hk Hv. eexists. split.
    + by eapply get_scalars_out_of_bounds.
    + by apply map_lookup_filter_Some.
  - exists ["v"], [[qz 1; qz 2; qz 3; qz 4; qz 5]].
    split; [vm_compute; reflexivity|]. split.
    { intros Hin. apply list_elem_of_singleton in Hin. discriminate. }
    split; [vm_compute; reflexivity|]. split.
    { right. vm_compute. reflexivity. }
    split.
    { intros l ->%list_elem_of_singleton. exists (Q2Qc (1 # 2)).
      split; [vm_compute; reflexivity|].
      intros [H|H]; vm_compute in H; discriminate. }
    intros uniform ax vert box_kwargs cloud_kwargs log.
    eapply get_scalars_fails; [vm_compute; reflexivity|].
    vm_compute. reflexivity.
Qed.

Lemma unused_out_of_bounds_key_rejected_witness :
  ("unused" ∉ ["v"]) ∧
  ∃ err_vals,
    get_scalars (SC_Dict unused_key_factors) ["v"] [[qz 1]]
    = Raise (ValueError_out_of_bounds err_vals) ∧
    err_vals !! "unused" = Some (qz 2).
Proof.
  assert ("unused" ∉ ["v"]) as Hnot.
  { intros Hin. apply list_elem_of_singleton in Hin. discriminate. }
  split; [exact Hnot|].
  apply (proj1 unused_out_of_bounds_key_rejected ["v"] [[qz 1]]
           unused_key_factors "unused" (qz 2) Hnot).
  - vm_compute. reflexivity.
  - right. vm_compute. reflexivity.
Defined.

(** C9: when the grouping stage returned its labels, every value of the scale
    map lies in [0,1], and some label has no entry in the map, both entry
    points raise a key error for such a label (the first one in plotting
    order), without having made any drawing call. *)
Theorem scale_map_missing_label uniform df col ax group_by group_order
    reverse factors vert box_kwargs cloud_kwargs log label_names plot_data :
  extract_groups df col group_by group_order reverse
  = Ok (label_names, plot_data) →
  (∀ k v, factors !! k = Some v → ¬ out_of_bounds (k, v)) →
  (∃ l, l ∈ label_names ∧ factors !! l = None) →
  ∃ l, l ∈ label_names ∧ factors !! l = None ∧
    pyplot_cloud df col ax group_by group_order reverse (SC_Dict factors) vert
      box_kwargs cloud_kwargs log = (log, Raise (KeyError l)) ∧
    pyplot_raincloud uniform df col ax group_by group_order reverse
      (SC_Dict factors) vert box_kwargs cloud_kwargs log
    = (log, Raise (KeyError l)).
Proof.
  intros He Hvalid Hmiss.
  destruct (mapM_getitem_missing factors label_names Hmiss)
    as (l & Hl & Hnone & Hm).
  exists l. split; [done|]. split; [done|].
  eapply get_scalars_fails; [done|]. simpl fst. simpl snd.
  by rewrite get_scalars_in_bounds.
Qed.

Lemma scale_map_missing_label_witness :
  ∃ l, l ∈ ["b"; "a"] ∧
    ({[ "a" := Q2Qc (1 # 2) ]} : gmap string Qc) !! l = None ∧
    pyplot_cloud example_table "v" blank_axes (Some "g") GO_None false
      (SC_Dict {[ "a" := Q2Qc (1 # 2) ]}) false KW_None KW_None []
    = ([], Raise (KeyError l)) ∧
    pyplot_raincloud no_jitter example_table "v" blank_axes (Some "g") GO_None
      false (SC_Dict {[ "a" := Q2Qc (1 # 2) ]}) false KW_None KW_None []
    = ([], Raise (KeyError l)).
Proof.
  apply (scale_map_missing_label no_jitter example_table "v" blank_axes
           (Some "g") GO_None false {[ "a" := Q2Qc (1 # 2) ]} false
           KW_None KW_None [] ["b"; "a"]
           [[qz 1; qz 2]; [qz 3; qz 4; qz 5]]).
  - vm_compute. reflexivity.
  - intros k v Hkv. apply lookup_singleton_Some in Hkv as [<- <-].
    intros [H|H]; vm_compute in H; discriminate.
  - exists "b". split; [by left|]. vm_compute. reflexivity.
Defined.

(** * Further properties *)

(** ** Layers of the option mappings *)


(* layered lookup *)
Lemma merge_kwargs_lookup (a b : gmap string pyval) k :
  merge_kwargs a b !! k = match b !! k with Some v => Some v | None => a !! k end.
Proof.
  unfold merge_kwargs. rewrite lookup_union. destruct (b !! k), (a !! k); done.
Qed.

Lemma boxplot_kwargs_layers kw label_names plot_data vert :
  ∃ m, boxplot_kwargs (KW_Dict kw) label_names plot_data vert = Ok m ∧
    m !! "labels" = Some (py_labels label_names) ∧
    m !! "x" = Some (py_data plot_data) ∧
    m !! "vert" = Some (PyBool vert) ∧
    ∀ k, k ≠ "labels" → k ≠ "x" → k ≠ "vert" →
      m !! k = match kw !! k with Some v => Some v | None => box_defaults !! k end.
Proof.
  eexists. split; [reflexivity|]. split; [|split; [|split]].
  - rewrite merge_kwargs_lookup. by simplify_map_eq.
  - rewrite merge_kwargs_lookup. by simplify_map_eq.
  - rewrite merge_kwargs_lookup. by simplify_map_eq.
  - intros k H1 H2 H3. rewrite !merge_kwargs_lookup. by simplify_map_eq.
Qed.

Lemma boxplot_kwargs_none label_names plot_data vert :
  boxplot_kwargs KW_None label_names plot_data vert
  = boxplot_kwargs (KW_Dict ∅) label_names plot_data vert.
Proof. vm_compute. reflexivity. Qed.
Lemma cloud_kwargs_none plot_data vert :
  cloud_violin_kwargs KW_None plot_data vert
  = cloud_violin_kwargs (KW_Dict ∅) plot_data vert.
Proof. vm_compute. reflexivity. Qed.


(** ** The two loops *)

Lemma cloud_loop_length idx items : length (cloud_loop idx items) = length items.
Proof.
  revert idx. induction items as [|[scale body] items IH]; intros idx; simpl; [done|].
  by rewrite IH.
Qed.

Lemma cloud_loop_lookup idx items i scale body :
  items !! i = Some (scale, body) →
  cloud_loop idx items !! i = Some (half_violin (idx + i) scale body).
Proof.
  revert idx i. induction items as [|[s b] items IH]; intros idx [|i]; simpl; try done.
  - intros [= -> ->]. by rewrite Nat.add_0_r.
  - intros Hi. rewrite (IH (S idx) i Hi). do 2 f_equal. lia.
Qed.

Lemma raincloud_loop_ok ax uniform plot_data idx items log :
  idx + length items ≤ length plot_data →
  ∃ calls scats,
    raincloud_loop ax uniform plot_data idx items log
    = (log ++ calls, Ok (cloud_loop idx items, scats)) ∧
    length calls = length items ∧
    scats.*1 = seq idx (length items) ∧
    ∀ i scale body, items !! i = Some (scale, body) →
      ∃ data, plot_data !! (idx + i) = Some data ∧
              calls !! i = Some (scatter_of uniform (idx + i) data body) ∧
              scats !! i = Some (idx + i, ax_scatter ax data (jitter uniform (idx + i) data)
                                    (Q2Qc (3 # 10)) (facecolor body)).
Proof.
  revert idx log. induction items as [|[scale body] items IH]; intros idx log Hlen.
  - exists [], []. simpl. rewrite app_nil_r. repeat split; try done.
  - simpl in Hlen. destruct (lookup_lt_is_Some_2 plot_data idx) as [data Hdata]; [lia|].
    destruct (IH (S idx) (log ++ [scatter_of uniform idx data (half_violin idx scale body)]))
      as (calls & scats & Hrun & Hcalls & Hkeys & Hlook); [lia|].
    exists (scatter_of uniform idx data body :: calls),
           ((idx, ax_scatter ax data (jitter uniform idx data) (Q2Qc (3 # 10)) (facecolor body)) :: scats).
    split; [|split; [|split]].
    + simpl. unfold run_bind, lift at 1. rewrite Hdata. simpl.
      unfold scatter_of, jitter in Hrun. simpl in Hrun. rewrite Hrun.
      unfold run_ret. simpl. by rewrite <-app_assoc.
    + simpl. by rewrite Hcalls.
    + rewrite fmap_cons. simpl. by rewrite Hkeys.
    + intros [|i] s b; simpl.
      * intros [= -> ->]. rewrite Nat.add_0_r. eauto.
      * intros Hi. destruct (Hlook i s b Hi) as (d & Hd & Hc & Hs).
        replace (idx + S i) with (S idx + i) by lia. eauto.
Qed.


(** ** Complete runs *)


Lemma pyplot_cloud_run df col ax group_by group_order reverse scale_clouds vert
    box_kwargs cloud_kwargs log label_names plot_data scalars bp_kw :
  extract_groups df col group_by group_order reverse = Ok (label_names, plot_data) →
  get_scalars scale_clouds label_names plot_data = Ok scalars →
  boxplot_kwargs box_kwargs label_names plot_data vert = Ok bp_kw →
  pyplot_cloud df col ax group_by group_order reverse scale_clouds vert
    box_kwargs cloud_kwargs log
  = match cloud_violin_kwargs cloud_kwargs plot_data vert with
    | Ok vp_kw =>
        (log ++ [Boxplot bp_kw; Violinplot vp_kw],
         Ok {| cloud_box := ax_boxplot ax bp_kw;
               cloud_cloud :=
                 written_back (cloud_loop 0 (zip scalars (ax_violinplot ax vp_kw)))
                   (ax_violinplot ax vp_kw) |})
    | Raise e => (log ++ [Boxplot bp_kw], Raise e)
    end.
Proof.
  intros H1 H2 H3.
  unfold pyplot_cloud, run_bind, lift, boxplot, violinplot, draw, run_ret.
  rewrite H1. simpl. rewrite H2, H3.
  destruct (cloud_violin_kwargs cloud_kwargs plot_data vert); [|done].
  by rewrite <-app_assoc.
Qed.

Lemma pyplot_raincloud_run uniform df col ax group_by group_order reverse
    scale_clouds vert box_kwargs cloud_kwargs log label_names plot_data scalars
    bp_kw :
  extract_groups df col group_by group_order reverse = Ok (label_names, plot_data) →
  get_scalars scale_clouds label_names plot_data = Ok scalars →
  boxplot_kwargs box_kwargs label_names plot_data vert = Ok bp_kw →
  pyplot_raincloud uniform df col ax group_by group_order reverse scale_clouds
    vert box_kwargs cloud_kwargs log
  = match raincloud_violin_kwargs cloud_kwargs plot_data vert with
    | Ok vp_kw =>
        let vp := ax_violinplot ax vp_kw in
        match raincloud_loop ax uniform plot_data 0 (zip scalars vp)
                (log ++ [Boxplot bp_kw; Violinplot vp_kw]) with
        | (log', Ok out) =>
            (log', Ok {| raincloud_box := ax_boxplot ax bp_kw;
                         raincloud_cloud := written_back out.1 vp;
                         raincloud_scats := out.2 |})
        | (log', Raise e) => (log', Raise e)
        end
    | Raise e => (log ++ [Boxplot bp_kw], Raise e)
    end.
Proof.
  intros H1 H2 H3.
  unfold pyplot_raincloud, run_bind, lift, boxplot, violinplot, draw, run_ret.
  rewrite H1. simpl. rewrite H2, H3.
  destruct (raincloud_violin_kwargs cloud_kwargs plot_data vert); [|done].
  by rewrite <-app_assoc.
Qed.

Lemma stages_lengths df col group_by group_order reverse scale_clouds
    label_names plot_data scalars :
  extract_groups df col group_by group_order reverse = Ok (label_names, plot_data) →
  get_scalars scale_clouds label_names plot_data = Ok scalars →
  length label_names = length plot_data ∧ length scalars = length plot_data.
Proof.
  intros He Hs. pose proof (extract_groups_aligned _ _ _ _ _ _ _ He) as Hal.
  pose proof (Forall2_length _ _ _ Hal) as Hlen. split; [done|].
  by destruct (get_scalars_aligned _ _ _ _ Hlen Hs).
Qed.

(** ** Bounds on scale factors and on rewritten coordinates *)

Lemma qnat_le a b : a ≤ b → (qnat a ≤ qnat b)%Qc.
Proof. intros H. unfold qnat. apply (proj1 (Z2Qc_inj_le _ _)). lia. Qed.

Lemma qnat_pos b : 0 < b → (0 < qnat b)%Qc.
Proof.
  intros H. unfold qnat. rewrite <-Z2Qc_inj_0.
  apply (proj1 (Z2Qc_inj_lt _ _)). lia.
Qed.

Lemma ratio_in_unit_interval a b :
  a ≤ b → 0 < b → in_unit_interval (qnat a / qnat b)%Qc.
Proof.
  intros Hab Hb. pose proof (qnat_pos b Hb) as Hpos.
  assert ((qnat a / qnat b) * qnat b = qnat a)%Qc as Hmul.
  { rewrite Qcmult_comm. apply Qcmult_div_r. by apply not_symmetry, Qclt_not_eq. }
  split; apply (Qcmult_lt_0_le_reg_r _ _ (qnat b) Hpos); rewrite Hmul.
  - rewrite Qcmult_0_l. rewrite <-Z2Qc_inj_0. apply (proj1 (Z2Qc_inj_le _ _)). lia.
  - rewrite Qcmult_1_l. by apply qnat_le.
Qed.

Lemma one_in_unit_interval : in_unit_interval 1.
Proof. split; vm_compute; discriminate. Qed.

Lemma get_scalars_bounded scale_clouds label_names plot_data scalars :
  get_scalars scale_clouds label_names plot_data = Ok scalars →
  Forall in_unit_interval scalars.
Proof.
  destruct scale_clouds as [|s|factors|]; simpl.
  - intros [= <-]. apply Forall_fmap, Forall_true. intros ?. apply one_in_unit_interval.
  - destruct (decide (s = "max")) as [->|]; [|done]. intros Hs.
    assert (plot_data ≠ []) as Hne by (by intros ->).
    change (get_scalars (SC_Str "max") label_names plot_data = Ok scalars) in Hs.
    rewrite get_scalars_max in Hs by done. injection Hs as <-.
    apply Forall_fmap, Forall_forall. intros el Hel. simpl.
    destruct (decide _) as [|Hneq]; [apply one_in_unit_interval|].
    pose proof (size_le_largest _ _ Hel).
    apply ratio_in_unit_interval; lia.
  - destruct (decide _) as [|Hsize]; [done|]. intros Hs%mapM_ok_Forall2.
    apply dec_stable in Hsize. apply map_size_empty_iff in Hsize.
    eapply Forall2_Forall_r; [exact Hs|]. apply Forall_forall.
    intros l _ f Hf%getitem_ok.
    assert (¬ out_of_bounds (l, f)) as Hin.
    { intros Hout.
      assert (filter out_of_bounds factors !! l = Some f) as Hl
        by (by apply map_lookup_filter_Some).
      by rewrite Hsize in Hl. }
    split.
    + apply Qcnot_lt_le. intros ?. apply Hin. by left.
    + apply Qcnot_lt_le. intros ?. apply Hin. by right.
  - done.
Qed.

Lemma half_violin_coord_below idx scale v :
  (v ≤ baseline idx)%Qc → half_violin_coord idx scale v = baseline idx.
Proof.
  intros Hv. unfold half_violin_coord, baseline in *.
  destruct (decide _); [ring | done].
Qed.

Lemma half_violin_coord_above idx scale v :
  (baseline idx < v)%Qc →
  half_violin_coord idx scale v = (baseline idx + scale * (v - baseline idx))%Qc.
Proof.
  intros Hv. unfold half_violin_coord, baseline in *.
  destruct (decide _) as [Hle|_]; [|ring].
  exfalso. by apply Qclt_not_le in Hv.
Qed.

Lemma half_violin_range idx scale v :
  in_unit_interval scale →
  (baseline idx ≤ half_violin_coord idx scale v)%Qc ∧
  ((baseline idx < v)%Qc → (half_violin_coord idx scale v ≤ v)%Qc).
Proof.
  intros [H0 H1]. destruct (Qclt_le_dec (baseline idx) v) as [Hlt|Hle].
  - rewrite (half_violin_coord_above _ _ _ Hlt).
    assert (0 ≤ v - baseline idx)%Qc as Hd.
    { apply Qclt_le_weak in Hlt. apply Qcle_minus_iff in Hlt. exact Hlt. }
    split.
    + pose proof (Qcmult_le_compat_r _ _ _ H0 Hd) as H. rewrite Qcmult_0_l in H.
      pose proof (Qcplus_le_compat _ _ _ _ (Qcle_refl (baseline idx)) H) as H'.
      by rewrite Qcplus_0_r in H'.
    + intros _. pose proof (Qcmult_le_compat_r _ _ _ H1 Hd) as H.
      pose proof (Qcplus_le_compat _ _ _ _ (Qcle_refl (baseline idx)) H) as H'.
      replace (baseline idx + 1 * (v - baseline idx))%Qc with v in H' by ring.
      done.
  - rewrite (half_violin_coord_below _ _ _ Hle). split; [apply Qcle_refl|].
    intros Hlt. by apply Qclt_not_le in Hlt.
Qed.

(** X4: whenever the scaling stage returns, every factor lies between 0 and
    1; in mode "max" one of them is 1. *)
Theorem scale_factors_in_unit_interval scale_clouds label_names plot_data scalars :
  get_scalars scale_clouds label_names plot_data = Ok scalars →
  Forall in_unit_interval scalars ∧
  (scale_clouds = SC_Str "max" → 1%Qc ∈ scalars).
Proof.
  intros Hs. split; [by eapply get_scalars_bounded|]. intros ->.
  assert (plot_data ≠ []) as Hne by (by intros ->).
  rewrite get_scalars_max in Hs by done. injection Hs as <-.
  destruct (max_by_len_ok _ Hne) as (longest & _ & Hin & Hlen).
  apply list_elem_of_fmap. exists longest. split; [|done].
  by rewrite decide_True.
Qed.



Lemma violin_kwargs_layers kw plot_data vert :
  ∃ m, cloud_violin_kwargs (KW_Dict kw) plot_data vert = Ok m ∧
    raincloud_violin_kwargs (KW_Dict kw) plot_data vert = Ok m ∧
    m !! "dataset" = Some (py_data plot_data) ∧
    m !! "vert" = Some (PyBool vert) ∧
    ∀ k, k ≠ "dataset" → k ≠ "vert" →
      m !! k = match kw !! k with Some v => Some v | None => cloud_defaults !! k end.
Proof.
  eexists. split; [reflexivity|]. split; [reflexivity|]. split; [|split].
  - rewrite merge_kwargs_lookup. by simplify_map_eq.
  - rewrite merge_kwargs_lookup. by simplify_map_eq.
  - intros k H1 H2. rewrite !merge_kwargs_lookup. by simplify_map_eq.
Qed.

Lemma box_kwargs_fails df col ax group_by group_order reverse scale_clouds vert
    box_kwargs cloud_kwargs uniform log label_names plot_data scalars e :
  extract_groups df col group_by group_order reverse = Ok (label_names, plot_data) →
  get_scalars scale_clouds label_names plot_data = Ok scalars →
  boxplot_kwargs box_kwargs label_names plot_data vert = Raise e →
  pyplot_cloud df col ax group_by group_order reverse scale_clouds vert
    box_kwargs cloud_kwargs log = (log, Raise e) ∧
  pyplot_raincloud uniform df col ax group_by group_order reverse scale_clouds
    vert box_kwargs cloud_kwargs log = (log, Raise e).
Proof.
  intros H1 H2 H3.
  unfold pyplot_cloud, pyplot_raincloud, run_bind, lift.
  rewrite H1. simpl. by rewrite H2, H3.
Qed.

(* the log of a raincloud run, stages ok *)
Lemma pyplot_raincloud_log uniform df col ax group_by group_order reverse
    scale_clouds vert box_kwargs cloud_kwargs log label_names plot_data scalars
    bp_kw :
  extract_groups df col group_by group_order reverse = Ok (label_names, plot_data) →
  get_scalars scale_clouds label_names plot_data = Ok scalars →
  boxplot_kwargs box_kwargs label_names plot_data vert = Ok bp_kw →
  ∃ calls,
    (pyplot_raincloud uniform df col ax group_by group_order reverse scale_clouds
       vert box_kwargs cloud_kwargs log).1
    = log ++ Boxplot bp_kw :: calls ∧
    match raincloud_violin_kwargs cloud_kwargs plot_data vert with
    | Ok vp_kw => head calls = Some (Violinplot vp_kw)
    | Raise _ => calls = []
    end.
Proof.
  intros H1 H2 H3.
  rewrite (pyplot_raincloud_run _ _ _ _ _ _ _ _ _ _ _ _ _ _ _ _ H1 H2 H3).
  destruct (raincloud_violin_kwargs cloud_kwargs plot_data vert) as [vp_kw|e].
  - cbn zeta.
    destruct (raincloud_loop_log ax uniform plot_data 0
                (zip scalars (ax_violinplot ax vp_kw))
                (log ++ [Boxplot bp_kw; Violinplot vp_kw])) as [calls Hc].
    destruct (raincloud_loop _ _ _ _ _ _) as [log' [out|e]]; simpl in *; subst log';
      exists (Violinplot vp_kw :: calls); by rewrite <-app_assoc.
  - by exists [].
Qed.

Lemma pyplot_cloud_log df col ax group_by group_order reverse
    scale_clouds vert box_kwargs cloud_kwargs log label_names plot_data scalars
    bp_kw :
  extract_groups df col group_by group_order reverse = Ok (label_names, plot_data) →
  get_scalars scale_clouds label_names plot_data = Ok scalars →
  boxplot_kwargs box_kwargs label_names plot_data vert = Ok bp_kw →
  (pyplot_cloud df col ax group_by group_order reverse scale_clouds
       vert box_kwargs cloud_kwargs log).1
  = log ++ Boxplot bp_kw ::
      match cloud_violin_kwargs cloud_kwargs plot_data vert with
      | Ok vp_kw => [Violinplot vp_kw]
      | Raise _ => []
      end.
Proof.
  intros H1 H2 H3.
  rewrite (pyplot_cloud_run _ _ _ _ _ _ _ _ _ _ _ _ _ _ _ H1 H2 H3).
  by destruct (cloud_violin_kwargs cloud_kwargs plot_data vert).
Qed.

(** X1: when both computing stages returned and the caller passes a mapping
    of box options, the box-plot call of either entry point receives labels,
    x and vert as the pipeline computed them, whatever the caller put under
    those names; every other option is the caller's value when given and the
    built-in default otherwise. *)
Theorem box_overrides_precedence uniform df col ax group_by group_order reverse
    scale_clouds vert kw cloud_kwargs log label_names plot_data scalars :
  extract_groups df col group_by group_order reverse = Ok (label_names, plot_data) →
  get_scalars scale_clouds label_names plot_data = Ok scalars →
  ∃ m,
    (pyplot_cloud df col ax group_by group_order reverse scale_clouds vert
       (KW_Dict kw) cloud_kwargs log).1 !! length log = Some (Boxplot m) ∧
    (pyplot_raincloud uniform df col ax group_by group_order reverse
       scale_clouds vert (KW_Dict kw) cloud_kwargs log).1 !! length log
    = Some (Boxplot m) ∧
    m !! "labels" = Some (py_labels label_names) ∧
    m !! "x" = Some (py_data plot_data) ∧
    m !! "vert" = Some (PyBool vert) ∧
    ∀ k, k ≠ "labels" → k ≠ "x" → k ≠ "vert" →
      m !! k = match kw !! k with
               | Some v => Some v
               | None => box_defaults !! k
               end.
Proof.
  intros H1 H2.
  destruct (boxplot_kwargs_layers kw label_names plot_data vert) as (m & Hm & Hlayers).
  exists m. split; [|split; [|exact Hlayers]].
  - rewrite (pyplot_cloud_log _ _ _ _ _ _ _ _ _ _ _ _ _ _ _ H1 H2 Hm).
    by rewrite list_lookup_middle.
  - destruct (pyplot_raincloud_log uniform _ _ ax _ _ _ _ _ _ cloud_kwargs log _ _ _ _ H1 H2 Hm)
      as (calls & -> & _).
    by rewrite list_lookup_middle.
Qed.



Lemma boxplot_kwargs_accepts box_kwargs label_names plot_data vert :
  box_kwargs ≠ KW_Other →
  ∃ bp_kw, boxplot_kwargs box_kwargs label_names plot_data vert = Ok bp_kw.
Proof. destruct box_kwargs; intros H; by eauto. Qed.

(** X2: when the caller passes a mapping of cloud options, the violin call of
    either entry point receives dataset and vert as the pipeline computed
    them; every other option is the caller's value when given and the
    built-in cloud default otherwise. *)
Theorem violin_overrides_precedence uniform df col ax group_by group_order
    reverse scale_clouds vert box_kwargs kw log label_names plot_data scalars :
  extract_groups df col group_by group_order reverse = Ok (label_names, plot_data) →
  get_scalars scale_clouds label_names plot_data = Ok scalars →
  box_kwargs ≠ KW_Other →
  ∃ m,
    (pyplot_cloud df col ax group_by group_order reverse scale_clouds vert
       box_kwargs (KW_Dict kw) log).1 !! S (length log) = Some (Violinplot m) ∧
    (pyplot_raincloud uniform df col ax group_by group_order reverse
       scale_clouds vert box_kwargs (KW_Dict kw) log).1 !! S (length log)
    = Some (Violinplot m) ∧
    m !! "dataset" = Some (py_data plot_data) ∧
    m !! "vert" = Some (PyBool vert) ∧
    ∀ k, k ≠ "dataset" → k ≠ "vert" →
      m !! k = match kw !! k with
               | Some v => Some v
               | None => cloud_defaults !! k
               end.
Proof.
  intros H1 H2 Hbox.
  destruct (boxplot_kwargs_accepts _ label_names plot_data vert Hbox) as [bp_kw Hb].
  destruct (violin_kwargs_layers kw plot_data vert) as (m & Hc & Hr & Hlayers).
  exists m. split; [|split; [|exact Hlayers]].
  - rewrite (pyplot_cloud_log _ _ _ _ _ _ _ _ _ _ _ _ _ _ _ H1 H2 Hb), Hc.
    rewrite lookup_app_r by lia. by replace (S (length log) - length log) with 1 by lia.
  - destruct (pyplot_raincloud_log uniform _ _ ax _ _ _ _ _ _ (KW_Dict kw) log
                _ _ _ _ H1 H2 Hb) as (calls & -> & Hhead).
    rewrite Hr in Hhead. rewrite lookup_app_r by lia.
    replace (S (length log) - length log) with 1 by lia.
    destruct calls; by simplify_eq/=.
Qed.

(** X3: in [pyplot_cloud], leaving both option arguments at None is the same
    as passing two empty mappings; in [pyplot_raincloud] this holds for the
    box options. *)
Theorem none_is_empty_mapping uniform df col ax group_by group_order reverse
    scale_clouds vert cloud_kwargs log :
  pyplot_cloud df col ax group_by group_order reverse scale_clouds vert
    KW_None KW_None log
  = pyplot_cloud df col ax group_by group_order reverse scale_clouds vert
      (KW_Dict ∅) (KW_Dict ∅) log ∧
  pyplot_raincloud uniform df col ax group_by group_order reverse scale_clouds
    vert KW_None cloud_kwargs log
  = pyplot_raincloud uniform df col ax group_by group_order reverse
      scale_clouds vert (KW_Dict ∅) cloud_kwargs log.
Proof.
  destruct (extract_groups df col group_by group_order reverse)
    as [[label_names plot_data]|e] eqn:He.
  - destruct (get_scalars scale_clouds label_names plot_data)
      as [scalars|e] eqn:Hs.
    + destruct (boxplot_kwargs KW_None label_names plot_data vert)
        as [bp_kw|e] eqn:Hb; [|done].
      pose proof Hb as Hb'. rewrite boxplot_kwargs_none in Hb'. split.
      * rewrite (pyplot_cloud_run _ _ _ _ _ _ _ _ _ _ _ _ _ _ _ He Hs Hb).
        rewrite (pyplot_cloud_run _ _ _ _ _ _ _ _ _ _ _ _ _ _ _ He Hs Hb').
        by rewrite cloud_kwargs_none.
      * rewrite (pyplot_raincloud_run _ _ _ _ _ _ _ _ _ _ _ _ _ _ _ _ He Hs Hb).
        by rewrite (pyplot_raincloud_run _ _ _ _ _ _ _ _ _ _ _ _ _ _ _ _ He Hs Hb').
    + split.
      * by rewrite !(proj1 (get_scalars_fails uniform _ _ _ _ _ _ _ _ _ _ _ _ _ He Hs)).
      * by rewrite !(proj2 (get_scalars_fails uniform _ _ _ _ _ _ _ _ _ _ _ _ _ He Hs)).
  - split.
    + by rewrite !(proj1 (extract_fails uniform _ _ _ _ _ _ _ _ _ _ _ _ He)).
    + by rewrite !(proj2 (extract_fails uniform _ _ _ _ _ _ _ _ _ _ _ _ He)).
Qed.

(** X9: an unrecognised group_order (with a group column), an unrecognised
    scale_clouds (once grouping returned), and a box_kwargs that is neither
    None nor a mapping (once grouping and scaling returned) each end the
    call in their ValueError before any drawing call. *)
Theorem unrecognised_arguments_rejected uniform df col ax group_by group_order
    reverse scale_clouds vert box_kwargs cloud_kwargs log :
  (∀ gb, group_by = Some gb → unrecognised_group_order gb group_order →
     pyplot_cloud df col ax group_by group_order reverse scale_clouds vert
       box_kwargs cloud_kwargs log = (log, Raise ValueError_group_order) ∧
     pyplot_raincloud uniform df col ax group_by group_order reverse
       scale_clouds vert box_kwargs cloud_kwargs log
     = (log, Raise ValueError_group_order)) ∧
  (∀ groups, extract_groups df col group_by group_order reverse = Ok groups →
     unrecognised_scale_clouds scale_clouds →
     pyplot_cloud df col ax group_by group_order reverse scale_clouds vert
       box_kwargs cloud_kwargs log = (log, Raise ValueError_scale_clouds) ∧
     pyplot_raincloud uniform df col ax group_by group_order reverse
       scale_clouds vert box_kwargs cloud_kwargs log
     = (log, Raise ValueError_scale_clouds)) ∧
  (∀ groups scalars,
     extract_groups df col group_by group_order reverse = Ok groups →
     get_scalars scale_clouds groups.1 groups.2 = Ok scalars →
     box_kwargs = KW_Other →
     pyplot_cloud df col ax group_by group_order reverse scale_clouds vert
       box_kwargs cloud_kwargs log = (log, Raise ValueError_box_kwargs) ∧
     pyplot_raincloud uniform df col ax group_by group_order reverse
       scale_clouds vert box_kwargs cloud_kwargs log
     = (log, Raise ValueError_box_kwargs)).
Proof.
  split; [|split].
  - intros gb -> Hgo. apply extract_fails. simpl.
    destruct Hgo as [->|(n & -> & Hn)]; [done|]. by rewrite decide_False.
  - intros groups He Hsc. eapply get_scalars_fails; [done|].
    destruct Hsc as [->|(s & -> & Hs)]; [done|]. simpl. by rewrite decide_False.
  - intros [label_names plot_data] scalars He Hs ->. by eapply box_kwargs_fails.
Qed.

(** X10: a cloud_kwargs that is neither None nor a mapping is rejected only
    after the box plot has been drawn: the error leaves exactly the box-plot
    call on the surface. *)
Theorem cloud_kwargs_rejected_after_boxplot uniform df col ax group_by
    group_order reverse scale_clouds vert box_kwargs log label_names plot_data
    scalars bp_kw :
  extract_groups df col group_by group_order reverse = Ok (label_names, plot_data) →
  get_scalars scale_clouds label_names plot_data = Ok scalars →
  boxplot_kwargs box_kwargs label_names plot_data vert = Ok bp_kw →
  pyplot_cloud df col ax group_by group_order reverse scale_clouds vert
    box_kwargs KW_Other log
  = (log ++ [Boxplot bp_kw], Raise ValueError_cloud_kwargs) ∧
  pyplot_raincloud uniform df col ax group_by group_order reverse scale_clouds
    vert box_kwargs KW_Other log
  = (log ++ [Boxplot bp_kw], Raise ValueError_cloud_kwargs).
Proof.
  intros H1 H2 H3. split.
  - by rewrite (pyplot_cloud_run _ _ _ _ _ _ _ _ _ _ _ _ _ _ _ H1 H2 H3).
  - by rewrite (pyplot_raincloud_run _ _ _ _ _ _ _ _ _ _ _ _ _ _ _ _ H1 H2 H3).
Qed.


(** ** Bodies handed back *)

Lemma written_back_length scalars (bodies : list Body) :
  length (written_back (cloud_loop 0 (zip scalars bodies)) bodies) = length bodies.
Proof.
  unfold written_back. rewrite length_app, length_drop, cloud_loop_length, length_zip. lia.
Qed.

Lemma written_back_lookup scalars (bodies : list Body) i body :
  bodies !! i = Some body →
  written_back (cloud_loop 0 (zip scalars bodies)) bodies !! i
  = Some (match scalars !! i with
          | Some scale => half_violin i scale body
          | None => body
          end).
Proof.
  intros Hb. unfold written_back. pose proof (lookup_lt_Some _ _ _ Hb) as Hi.
  destruct (scalars !! i) as [scale|] eqn:Hs.
  - rewrite lookup_app_l.
    + apply (cloud_loop_lookup 0 _ i scale body), lookup_zip_Some. done.
    + rewrite cloud_loop_length, length_zip.
      apply lookup_lt_Some in Hs. lia.
  - apply lookup_ge_None in Hs. rewrite lookup_app_r.
    + rewrite cloud_loop_length, length_zip, lookup_drop. rewrite <-Hb. f_equal. lia.
    + rewrite cloud_loop_length, length_zip. lia.
Qed.

Lemma half_violin_vertices idx scale body :
  vertices (half_violin idx scale body)
  = (λ xy, (xy.1, half_violin_coord idx scale xy.2)) <$> vertices body.
Proof.
  simpl. induction (vertices body) as [|[x y] l IH]; [done|]. simpl. by f_equal.
Qed.

(** Equality of evaluated structures that hold rationals: componentwise,
    and on a rational by comparing the fractions. *)
Ltac qc_eq :=
  lazymatch goal with
  | |- @eq Qc _ _ => apply Qc_is_canon; vm_compute; reflexivity
  | |- _ => first [reflexivity | f_equal; qc_eq]
  end.

(** What a call that returned went through. *)
Lemma pyplot_cloud_returned df col ax group_by group_order reverse scale_clouds
    vert box_kwargs cloud_kwargs log out :
  (pyplot_cloud df col ax group_by group_order reverse scale_clouds vert
     box_kwargs cloud_kwargs log).2 = Ok out →
  ∃ label_names plot_data scalars vp_kw,
    extract_groups df col group_by group_order reverse
    = Ok (label_names, plot_data) ∧
    get_scalars scale_clouds label_names plot_data = Ok scalars ∧
    cloud_violin_kwargs cloud_kwargs plot_data vert = Ok vp_kw ∧
    cloud_cloud out
    = written_back (cloud_loop 0 (zip scalars (ax_violinplot ax vp_kw)))
        (ax_violinplot ax vp_kw).
Proof.
  unfold pyplot_cloud, run_bind, lift, boxplot, violinplot, draw, run_ret.
  destruct (extract_groups _ _ _ _ _) as [[label_names plot_data]|] eqn:He;
    [|done].
  simpl. destruct (get_scalars _ _ _) as [scalars|] eqn:Hs; [|done].
  destruct (boxplot_kwargs _ _ _ _) as [bp_kw|]; [|done].
  destruct (cloud_violin_kwargs _ _ _) as [vp_kw|] eqn:Hv; [|done].
  simpl. intros [= <-]. by exists label_names, plot_data, scalars, vp_kw.
Qed.

Lemma cloud_violin_kwargs_vert cloud_kwargs plot_data vert vp_kw :
  cloud_violin_kwargs cloud_kwargs plot_data vert = Ok vp_kw →
  vp_kw !! "vert" = Some (PyBool vert).
Proof.
  destruct cloud_kwargs as [|kw|]; [| |done].
  - intros [= <-]. by simplify_map_eq.
  - intros [= <-]. rewrite merge_kwargs_lookup. by simplify_map_eq.
Qed.

(** C3: whenever [pyplot_cloud] returns, the violin call was made with the
    caller's [vert], and for the group at zero-based position [idx] with
    scale factor [scale] the body comes back with column 0 of every vertex
    as the surface drew it and column 1 rewritten: a coordinate at or below
    the baseline [idx + 1] goes to the baseline, whatever the scale factor,
    and a coordinate above it to [baseline + scale * (v - baseline)].  With
    [vert = False] column 1 is the density axis and the density coordinates
    are mapped in this way.  With [vert = True] the density axis is column
    0: the density coordinates stay as drawn and the observation
    coordinates are rewritten instead.  On a surface that follows this
    layout, with scale 1/2 for the only group: drawn vertically, the density
    coordinates 1, 1/2, 1, 3/2 come back unchanged (1/2 lies below the
    baseline 1) and the observation coordinates 0, 3, 6, 3 come back as 1,
    2, 7/2, 2; drawn horizontally, the density coordinates come back as 1,
    1, 1, 5/4.  With baseline 2 and scale 1/2 the value 4 goes to 3. *)
Theorem half_violin_ignores_orientation df col ax group_by group_order reverse
    scale_clouds vert box_kwargs cloud_kwargs log out :
  ((pyplot_cloud df col ax group_by group_order reverse scale_clouds vert
      box_kwargs cloud_kwargs log).2 = Ok out →
   ∃ label_names plot_data scalars vp_kw,
     extract_groups df col group_by group_order reverse
     = Ok (label_names, plot_data) ∧
     get_scalars scale_clouds label_names plot_data = Ok scalars ∧
     cloud_violin_kwargs cloud_kwargs plot_data vert = Ok vp_kw ∧
     vp_kw !! "vert" = Some (PyBool vert) ∧
     ∀ idx scale body,
       scalars !! idx = Some scale →
       ax_violinplot ax vp_kw !! idx = Some body →
       ∃ body',
         cloud_cloud out !! idx = Some body' ∧
         Forall2 (λ xy xy',
             xy'.1 = xy.1 ∧
             ((xy.2 ≤ baseline idx)%Qc → xy'.2 = baseline idx) ∧
             ((baseline idx < xy.2)%Qc →
                xy'.2 = (baseline idx + scale * (xy.2 - baseline idx))%Qc) ∧
             (vert = false →
                data_axis vert xy' = data_axis vert xy ∧
                ((density_axis vert xy ≤ baseline idx)%Qc →
                   density_axis vert xy' = baseline idx) ∧
                ((baseline idx < density_axis vert xy)%Qc →
                   density_axis vert xy'
                   = (baseline idx
                      + scale * (density_axis vert xy - baseline idx))%Qc)) ∧
             (vert = true →
                density_axis vert xy' = density_axis vert xy ∧
                data_axis vert xy'
                = half_violin_coord idx scale (data_axis vert xy)))
           (vertices body) (vertices body')) ∧
  (pyplot_cloud example_table "v" oriented_axes None GO_None false
     (SC_Dict half_scale) true KW_None KW_None []).2
  = Ok vertical_outcome ∧
  (pyplot_cloud example_table "v" oriented_axes None GO_None false
     (SC_Dict half_scale) false KW_None KW_None []).2
  = Ok horizontal_outcome ∧
  half_violin_coord 1 (Q2Qc (1 # 2)) (qz 4) = qz 3.
Proof.
  split; [|split; [|split]].
  - intros (label_names & plot_data & scalars & vp_kw & He & Hs & Hv & Hout)
      %pyplot_cloud_returned.
    exists label_names, plot_data, scalars, vp_kw.
    split; [done|]. split; [done|]. split; [done|].
    split; [by eapply cloud_violin_kwargs_vert|].
    intros idx scale body Hscale Hbody. exists (half_violin idx scale body).
    split.
    { rewrite Hout, (written_back_lookup scalars _ _ _ Hbody). by rewrite Hscale. }
    rewrite half_violin_vertices. apply Forall2_fmap_r, Forall_Forall2_diag.
    apply Forall_forall. intros [x y] _. simpl.
    split; [done|]. split; [apply half_violin_coord_below|].
    split; [apply half_violin_coord_above|]. split.
    + intros ->. simpl. split; [done|].
      split; [apply half_violin_coord_below | apply half_violin_coord_above].
    + by intros ->.
  - vm_compute. qc_eq.
  - vm_compute. qc_eq.
  - qc_eq.
Qed.

Lemma half_violin_ignores_orientation_witness :
  (pyplot_cloud example_table "v" oriented_axes None GO_None false
     (SC_Dict half_scale) true KW_None KW_None []).2
  = Ok vertical_outcome ∧
  ∃ body',
    cloud_cloud vertical_outcome !! 0 = Some body' ∧
    Forall2 (λ xy xy',
        density_axis true xy' = density_axis true xy ∧
        data_axis true xy'
        = half_violin_coord 0 (Q2Qc (1 # 2)) (data_axis true xy))
      (vertices (oriented_body true)) (vertices body').
Proof.
  assert ((pyplot_cloud example_table "v" oriented_axes None GO_None false
             (SC_Dict half_scale) true KW_None KW_None []).2
          = Ok vertical_outcome) as Hrun by (vm_compute; qc_eq).
  split; [exact Hrun|].
  destruct (proj1 (half_violin_ignores_orientation example_table "v"
                     oriented_axes None GO_None false (SC_Dict half_scale)
                     true KW_None KW_None [] vertical_outcome) Hrun)
    as (label_names & plot_data & scalars & vp_kw & He & Hs & Hv & Hvert
        & Hbodies).
  destruct (Hbodies 0 (Q2Qc (1 # 2)) (oriented_body true))
    as (body' & Hbody' & Hall).
  - vm_compute in He. injection He as <- <-.
    vm_compute in Hs. injection Hs as <-. simpl. qc_eq.
  - simpl. by rewrite Hvert.
  - exists body'. split; [exact Hbody'|].
    eapply Forall2_impl; [exact Hall|]. simpl.
    intros xy xy' (_ & _ & _ & _ & Hvertical). exact (Hvertical eq_refl).
Defined.

(** X15: for a scale factor between 0 and 1 the loop body keeps the fill
    colour, the number of vertices and every first coordinate; every second
    coordinate ends at or above the baseline, at the baseline when it was at
    or below it, no higher than it was when it was above it; scale 0 puts
    all of them on the baseline and scale 1 leaves those above it alone. *)
Theorem half_violin_keeps_upper_half idx scale body :
  (0 ≤ scale)%Qc → (scale ≤ 1)%Qc →
  facecolor (half_violin idx scale body) = facecolor body ∧
  length (vertices (half_violin idx scale body)) = length (vertices body) ∧
  ∀ i x y, vertices body !! i = Some (x, y) →
    ∃ y', vertices (half_violin idx scale body) !! i = Some (x, y') ∧
          (baseline idx ≤ y')%Qc ∧
          ((y ≤ baseline idx)%Qc → y' = baseline idx) ∧
          ((baseline idx < y)%Qc → (y' ≤ y)%Qc) ∧
          (scale = 0%Qc → y' = baseline idx) ∧
          (scale = 1%Qc → (baseline idx < y)%Qc → y' = y).
Proof.
  intros H0 H1. split; [done|]. rewrite half_violin_vertices, length_fmap.
  split; [done|]. intros i x y Hi. eexists.
  rewrite list_lookup_fmap, Hi. split; [done|]. simpl.
  destruct (half_violin_range idx scale y (conj H0 H1)) as [Hlow Hup].
  split; [done|]. split; [apply half_violin_coord_below|]. split; [done|]. split.
  - intros ->. destruct (Qclt_le_dec (baseline idx) y) as [Hlt|Hle].
    + rewrite (half_violin_coord_above _ _ _ Hlt). ring.
    + by apply half_violin_coord_below.
  - intros -> Hlt. rewrite (half_violin_coord_above _ _ _ Hlt). ring.
Qed.

(** X11: when grouping and scaling returned and both option arguments are None
    or mappings, [pyplot_cloud] returns after exactly one box-plot call and
    one violin call; it hands back as many bodies as the surface made, the
    body at position i rewritten with the i-th scale factor and the bodies
    beyond the groups untouched; no vertex of a rewritten body lies below
    its baseline. *)
Theorem pyplot_cloud_returns df col ax group_by group_order reverse scale_clouds
    vert box_kwargs cloud_kwargs log label_names plot_data scalars :
  extract_groups df col group_by group_order reverse = Ok (label_names, plot_data) →
  get_scalars scale_clouds label_names plot_data = Ok scalars →
  box_kwargs ≠ KW_Other → cloud_kwargs ≠ KW_Other →
  ∃ bp_kw vp_kw out,
    pyplot_cloud df col ax group_by group_order reverse scale_clouds vert
      box_kwargs cloud_kwargs log
    = (log ++ [Boxplot bp_kw; Violinplot vp_kw], Ok out) ∧
    cloud_box out = ax_boxplot ax bp_kw ∧
    length (cloud_cloud out) = length (ax_violinplot ax vp_kw) ∧
    (∀ i body, ax_violinplot ax vp_kw !! i = Some body →
       cloud_cloud out !! i
       = Some (match scalars !! i with
               | Some scale => half_violin i scale body
               | None => body
               end)) ∧
    (∀ i body xy, i < length scalars → cloud_cloud out !! i = Some body →
       xy ∈ vertices body → (baseline i ≤ xy.2)%Qc).
Proof.
  intros He Hs Hbox Hcloud.
  destruct (boxplot_kwargs_accepts _ label_names plot_data vert Hbox) as [bp_kw Hb].
  assert (∃ vp_kw, cloud_violin_kwargs cloud_kwargs plot_data vert = Ok vp_kw)
    as [vp_kw Hv] by (destruct cloud_kwargs; by eauto).
  exists bp_kw, vp_kw. eexists.
  rewrite (pyplot_cloud_run _ _ _ _ _ _ _ _ _ _ _ _ _ _ _ He Hs Hb), Hv.
  split; [reflexivity|]. simpl. split; [done|].
  split; [apply written_back_length|]. split; [apply written_back_lookup|].
  intros i body' xy Hi Hbody' Hxy.
  destruct (lookup_lt_is_Some_2 _ _ Hi) as [scale Hscale].
  assert (is_Some (ax_violinplot ax vp_kw !! i)) as [body Hbody].
  { apply lookup_lt_is_Some. rewrite <-(written_back_length scalars).
    by eapply lookup_lt_Some. }
  rewrite (written_back_lookup _ _ _ _ Hbody), Hscale in Hbody'.
  injection Hbody' as <-.
  rewrite half_violin_vertices in Hxy.
  apply list_elem_of_fmap in Hxy as ([x y] & -> & _). simpl.
  pose proof (get_scalars_bounded _ _ _ _ Hs) as Hall.
  rewrite Forall_forall in Hall.
  apply half_violin_range, Hall. by eapply list_elem_of_lookup_2.
Qed.


(** ** Scatter calls *)


Lemma jitter_in_range uniform idx data :
  uniform_in_range uniform →
  length (jitter uniform idx data) = length data ∧
  Forall (λ y, (qnat idx + Q2Qc (6 # 10) ≤ y)%Qc ∧ (y ≤ qnat idx + Q2Qc (9 # 10))%Qc)
    (jitter uniform idx data).
Proof.
  intros Hu. destruct (Hu idx (length data)) as [Hlen Hall]. unfold jitter.
  rewrite length_fmap. split; [done|]. apply Forall_fmap.
  eapply Forall_impl; [exact Hall|]. simpl. intros u [Hlo Hhi].
  assert (Q2Qc (6 # 10) = Q2Qc (-15 # 100) + Q2Qc (75 # 100))%Qc as ->
    by (apply Qc_is_canon; vm_compute; reflexivity).
  assert (Q2Qc (9 # 10) = Q2Qc (15 # 100) + Q2Qc (75 # 100))%Qc as ->
    by (apply Qc_is_canon; vm_compute; reflexivity).
  split.
  - replace (qnat idx + (Q2Qc (-15 # 100) + Q2Qc (75 # 100)))%Qc
      with (Q2Qc (-15 # 100) + (qnat idx + Q2Qc (75 # 100)))%Qc by ring.
    apply Qcplus_le_compat; [done | apply Qcle_refl].
  - replace (qnat idx + (Q2Qc (15 # 100) + Q2Qc (75 # 100)))%Qc
      with (Q2Qc (15 # 100) + (qnat idx + Q2Qc (75 # 100)))%Qc by ring.
    apply Qcplus_le_compat; [done | apply Qcle_refl].
Qed.

Section raincloud_run.
Context (uniform : nat → nat → list Qc) (df : DataFrame) (col : string)
  (ax : Axes) (group_by : option string) (group_order : group_order_arg)
  (reverse : bool) (scale_clouds : scale_clouds_arg) (vert : bool)
  (box_kwargs cloud_kwargs : kwargs_arg) (log : list draw_call)
  (label_names : list string) (plot_data : list (list Qc)) (scalars : list Qc)
  (bp_kw vp_kw : gmap string pyval).
Hypothesis He :
  extract_groups df col group_by group_order reverse = Ok (label_names, plot_data).
Hypothesis Hs : get_scalars scale_clouds label_names plot_data = Ok scalars.
Hypothesis Hb : boxplot_kwargs box_kwargs label_names plot_data vert = Ok bp_kw.
Hypothesis Hv : raincloud_violin_kwargs cloud_kwargs plot_data vert = Ok vp_kw.

Lemma pyplot_raincloud_loop_calls :
  ∃ calls scats,
    pyplot_raincloud uniform df col ax group_by group_order reverse scale_clouds
      vert box_kwargs cloud_kwargs log
    = (log ++ [Boxplot bp_kw; Violinplot vp_kw] ++ calls,
       Ok {| raincloud_box := ax_boxplot ax bp_kw;
             raincloud_cloud :=
               written_back
                 (cloud_loop 0 (zip scalars (ax_violinplot ax vp_kw)))
                 (ax_violinplot ax vp_kw);
             raincloud_scats := scats |}) ∧
    length calls = length scalars `min` length (ax_violinplot ax vp_kw) ∧
    scats.*1 = seq 0 (length scalars `min` length (ax_violinplot ax vp_kw)) ∧
    ∀ i scale body,
      scalars !! i = Some scale → ax_violinplot ax vp_kw !! i = Some body →
      ∃ data, plot_data !! i = Some data ∧
        calls !! i = Some (scatter_of uniform i data body) ∧
        scats !! i
        = Some (i, ax_scatter ax data (jitter uniform i data) (Q2Qc (3 # 10))
                     (facecolor body)).
Proof.
  destruct (stages_lengths _ _ _ _ _ _ _ _ _ He Hs) as [_ Hlen].
  rewrite (pyplot_raincloud_run _ _ _ _ _ _ _ _ _ _ _ _ _ _ _ _ He Hs Hb), Hv.
  cbn zeta.
  destruct (raincloud_loop_ok ax uniform plot_data 0
              (zip scalars (ax_violinplot ax vp_kw))
              (log ++ [Boxplot bp_kw; Violinplot vp_kw]))
    as (calls & scats & Hrun & Hcalls & Hkeys & Hlook).
  { rewrite length_zip. lia. }
  rewrite Hrun. rewrite length_zip in Hcalls, Hkeys.
  exists calls, scats. split; [by rewrite <-app_assoc|].
  split; [done|]. split; [done|].
  intros i scale body Hsc Hbo.
  apply (Hlook i scale body). apply lookup_zip_Some. done.
Qed.
End raincloud_run.


(** X12: under the same conditions [pyplot_raincloud] never fails in its loop;
    after the box-plot and the violin call it makes one scatter call per
    group that has a body, in order, with the data of that group, marker
    size 0.3 and the fill colour of that body, and it returns the handles
    under the keys 0, 1, ... *)
Theorem pyplot_raincloud_scatters uniform df col ax group_by group_order reverse
    scale_clouds vert box_kwargs cloud_kwargs log label_names plot_data scalars :
  extract_groups df col group_by group_order reverse = Ok (label_names, plot_data) →
  get_scalars scale_clouds label_names plot_data = Ok scalars →
  box_kwargs ≠ KW_Other → cloud_kwargs ≠ KW_Other →
  ∃ bp_kw vp_kw calls out,
    pyplot_raincloud uniform df col ax group_by group_order reverse scale_clouds
      vert box_kwargs cloud_kwargs log
    = (log ++ [Boxplot bp_kw; Violinplot vp_kw] ++ calls, Ok out) ∧
    length calls = length plot_data `min` length (ax_violinplot ax vp_kw) ∧
    (raincloud_scats out).*1 = seq 0 (length calls) ∧
    ∀ i, i < length calls →
      ∃ data body y,
        plot_data !! i = Some data ∧
        ax_violinplot ax vp_kw !! i = Some body ∧
        calls !! i = Some (Scatter data y (Q2Qc (3 # 10)) (facecolor body)) ∧
        raincloud_scats out !! i
        = Some (i, ax_scatter ax data y (Q2Qc (3 # 10)) (facecolor body)).
Proof.
  intros He Hs Hbox Hcloud.
  destruct (boxplot_kwargs_accepts _ label_names plot_data vert Hbox) as [bp_kw Hb].
  assert (∃ vp_kw, raincloud_violin_kwargs cloud_kwargs plot_data vert = Ok vp_kw)
    as [vp_kw Hv] by (destruct cloud_kwargs; by eauto).
  destruct (stages_lengths _ _ _ _ _ _ _ _ _ He Hs) as [_ Hlen].
  destruct (pyplot_raincloud_loop_calls uniform _ _ ax _ _ _ _ _ _ _ log _ _ _ _ _
              He Hs Hb Hv) as (calls & scats & Hrun & Hcalls & Hkeys & Hlook).
  exists bp_kw, vp_kw, calls. eexists. split; [exact Hrun|].
  rewrite Hlen in Hcalls, Hkeys. split; [done|]. simpl. split; [by rewrite Hcalls|].
  intros i Hi.
  destruct (lookup_lt_is_Some_2 scalars i) as [scale Hscale]; [lia|].
  destruct (lookup_lt_is_Some_2 (ax_violinplot ax vp_kw) i) as [body Hbody]; [lia|].
  destruct (Hlook i scale body Hscale Hbody) as (data & Hd & Hc & Hsc).
  exists data, body, (jitter uniform i data). done.
Qed.

(** X14: when the random source keeps its promise, the i-th scatter call of
    [pyplot_raincloud] carries the data of group i, one second coordinate
    per observation, each between i + 0.6 and i + 0.9. *)
Theorem scatter_jitter_in_range uniform df col ax group_by group_order reverse
    scale_clouds vert box_kwargs cloud_kwargs log label_names plot_data scalars
    i x y s c :
  uniform_in_range uniform →
  extract_groups df col group_by group_order reverse = Ok (label_names, plot_data) →
  get_scalars scale_clouds label_names plot_data = Ok scalars →
  (pyplot_raincloud uniform df col ax group_by group_order reverse scale_clouds
     vert box_kwargs cloud_kwargs log).1 !! (length log + 2 + i)
  = Some (Scatter x y s c) →
  plot_data !! i = Some x ∧
  length y = length x ∧
  Forall (λ v, (qnat i + Q2Qc (6 # 10) ≤ v)%Qc ∧ (v ≤ qnat i + Q2Qc (9 # 10))%Qc) y.
Proof.
  intros Hu He Hs Hcall.
  destruct (boxplot_kwargs box_kwargs label_names plot_data vert) as [bp_kw|e] eqn:Hb.
  2: { rewrite (proj2 (box_kwargs_fails _ _ ax _ _ _ _ _ _ cloud_kwargs uniform log
                         _ _ _ _ He Hs Hb)) in Hcall.
       simpl in Hcall. apply lookup_lt_Some in Hcall. lia. }
  destruct (raincloud_violin_kwargs cloud_kwargs plot_data vert) as [vp_kw|e] eqn:Hv.
  2: { rewrite (pyplot_raincloud_run _ _ _ _ _ _ _ _ _ _ _ _ _ _ _ _ He Hs Hb), Hv in Hcall.
       simpl in Hcall. apply lookup_lt_Some in Hcall. rewrite length_app in Hcall.
       simpl in Hcall. lia. }
  destruct (pyplot_raincloud_loop_calls uniform _ _ ax _ _ _ _ _ _ _ log _ _ _ _ _
              He Hs Hb Hv) as (calls & scats & Hrun & Hcalls & Hkeys & Hlook).
  rewrite Hrun in Hcall. simpl in Hcall.
  rewrite lookup_app_r in Hcall by lia.
  replace (length log + 2 + i - length log) with (S (S i)) in Hcall by lia.
  simpl in Hcall. pose proof (lookup_lt_Some _ _ _ Hcall) as Hi.
  destruct (lookup_lt_is_Some_2 scalars i) as [scale Hscale]; [lia|].
  destruct (lookup_lt_is_Some_2 (ax_violinplot ax vp_kw) i) as [body Hbody]; [lia|].
  destruct (Hlook i scale body Hscale Hbody) as (data & Hd & Hc & _).
  rewrite Hc in Hcall. injection Hcall as <- <- <- <-.
  split; [done|]. by apply jitter_in_range.
Qed.

(** X13: when cloud_kwargs is given, [pyplot_raincloud] refines
    [pyplot_cloud]: it fails with the same error after the same calls, or it
    makes the same calls followed by scatter calls only and returns the same
    box handle and the same bodies. *)
Theorem raincloud_extends_cloud uniform df col ax group_by group_order reverse
    scale_clouds vert box_kwargs cloud_kwargs log :
  cloud_kwargs ≠ KW_None →
  match pyplot_cloud df col ax group_by group_order reverse scale_clouds vert
          box_kwargs cloud_kwargs log with
  | (log', Raise e) =>
      pyplot_raincloud uniform df col ax group_by group_order reverse
        scale_clouds vert box_kwargs cloud_kwargs log = (log', Raise e)
  | (log', Ok out) =>
      ∃ calls out',
        pyplot_raincloud uniform df col ax group_by group_order reverse
          scale_clouds vert box_kwargs cloud_kwargs log
        = (log' ++ calls, Ok out') ∧
        Forall is_scatter calls ∧
        raincloud_box out' = cloud_box out ∧
        raincloud_cloud out' = cloud_cloud out
  end.
Proof.
  intros Hck.
  destruct (extract_groups df col group_by group_order reverse)
    as [[label_names plot_data]|e] eqn:He.
  2: { by destruct (extract_fails uniform _ _ ax _ _ _ scale_clouds vert box_kwargs
                      cloud_kwargs _ log He) as [-> ->]. }
  destruct (get_scalars scale_clouds label_names plot_data) as [scalars|e] eqn:Hs.
  2: { by destruct (get_scalars_fails uniform _ _ ax _ _ _ _ vert box_kwargs
                      cloud_kwargs _ _ log He Hs) as [-> ->]. }
  destruct (boxplot_kwargs box_kwargs label_names plot_data vert) as [bp_kw|e] eqn:Hb.
  2: { by destruct (box_kwargs_fails _ _ ax _ _ _ _ _ _ cloud_kwargs uniform log
                      _ _ _ _ He Hs Hb) as [-> ->]. }
  rewrite (pyplot_cloud_run _ _ _ _ _ _ _ _ _ _ _ _ _ _ _ He Hs Hb).
  assert (cloud_violin_kwargs cloud_kwargs plot_data vert
          = raincloud_violin_kwargs cloud_kwargs plot_data vert) as Heq
    by (by destruct cloud_kwargs).
  destruct (cloud_violin_kwargs cloud_kwargs plot_data vert) as [vp_kw|e] eqn:Hv.
  - symmetry in Heq.
    destruct (pyplot_raincloud_loop_calls uniform _ _ ax _ _ _ _ _ _ _ log _ _ _ _ _
                He Hs Hb Heq) as (calls & scats & Hrun & Hcalls & Hkeys & Hlook).
    exists calls. eexists. split; [by rewrite Hrun, <-app_assoc|].
    split; [|done]. apply Forall_lookup. intros i c Hc.
    pose proof (lookup_lt_Some _ _ _ Hc) as Hi.
    destruct (lookup_lt_is_Some_2 scalars i) as [scale Hscale]; [lia|].
    destruct (lookup_lt_is_Some_2 (ax_violinplot ax vp_kw) i) as [body Hbody]; [lia|].
    destruct (Hlook i scale body Hscale Hbody) as (data & _ & Hc' & _).
    rewrite Hc' in Hc. by injection Hc as <-.
  - rewrite (pyplot_raincloud_run _ _ _ _ _ _ _ _ _ _ _ _ _ _ _ _ He Hs Hb).
    by rewrite <-Heq.
Qed.


(** ** Groups and rows *)

Lemma mapM_fmap {A B C} (f : B → result C) (g : A → B) l :
  mapM (λ x, f (g x)) l = mapM f (g <$> l).
Proof.
  induction l as [|x l IH]; [done|].
  rewrite fmap_cons, !mapM_cons. by rewrite IH.
Qed.

Lemma extract_groups_labels_perm df col gb group_order reverse label_names plot_data :
  extract_groups df col (Some gb) group_order reverse = Ok (label_names, plot_data) →
  ∃ cats, label_columns df !! gb = Some cats ∧ label_names ≡ₚ discover cats.
Proof.
  unfold extract_groups. destruct group_order as [|ordinals|n|f|].
  - intros (pd & (cats & Hc & Hk & _)%group_lists_ok & [= <- <-])%bind_ok.
    exists cats. by rewrite Hk.
  - intros (series & (cats & Hc & Hk & _)%group_series_ok & Hsort)%bind_ok.
    apply bind_ok in Hsort as (pd & Hperm%sorted_perm & [= <- <-]).
    exists cats. by rewrite Hperm, Hk.
  - destruct (decide (n = gb)) as [->|]; [|done].
    intros (pd & (cats & Hc & Hk & _)%group_lists_ok & Hsort)%bind_ok.
    apply bind_ok in Hsort as (labels & Hperm%sorted_perm & Hdata).
    apply bind_ok in Hdata as (data & _ & [= <- <-]).
    exists cats. by rewrite Hperm, Hk.
  - intros (series & (cats & Hc & Hk & _)%group_series_ok & Hsort)%bind_ok.
    apply bind_ok in Hsort as (pd & Hperm%sorted_perm & [= <- <-]).
    exists cats. by rewrite Hperm, Hk.
  - done.
Qed.

(** X5: with a group column, in every ordering mode and for both settings of
    reverse, the labels are pairwise distinct and are exactly the categories
    found in the group column. *)
Theorem every_category_labels_one_group df col gb group_order reverse
    label_names plot_data :
  extract_groups df col (Some gb) group_order reverse = Ok (label_names, plot_data) →
  ∃ cats, label_columns df !! gb = Some cats ∧
          NoDup label_names ∧ ∀ l, l ∈ label_names ↔ l ∈ cats.
Proof.
  intros (cats & Hc & Hperm)%extract_groups_labels_perm. exists cats.
  split; [done|]. split.
  - rewrite Hperm. apply NoDup_discover.
  - intros l. rewrite Hperm. apply elem_of_discover.
Qed.

(** counting rows *)
Lemma rows_of_length index cats c :
  length index = length cats →
  length (rows_of index cats c) = length (filter (λ x, x = c) cats).
Proof.
  unfold rows_of. rewrite length_fmap. revert cats.
  induction index as [|l index IH]; intros [|x cats] Hlen; simplify_eq/=; [done|].
  rewrite !filter_cons. simpl.
  destruct (decide (x = c)); simpl; by rewrite IH.
Qed.

Lemma sum_list_split_on {A} `{EqDecision A} (g : A → nat) (x : A) (l : list A) :
  NoDup l →
  sum_list (g <$> l)
  = (if decide (x ∈ l) then g x else 0) + sum_list (g <$> filter (λ y, y ≠ x) l).
Proof.
  induction 1 as [|y l Hy Hl IH]; [by rewrite decide_False by apply not_elem_of_nil|].
  rewrite fmap_cons, filter_cons. simpl. rewrite IH.
  destruct (decide (y = x)) as [->|Hne].
  - destruct (decide (x ∈ l)); [done|].
    destruct (decide (x ∈ x :: l)) as [|Hn]; [|exfalso; apply Hn; left].
    destruct (decide (x ≠ x)); [done|]. simpl. lia.
  - destruct (decide (y ≠ x)); [|done]. simpl.
    destruct (decide (x ∈ l)) as [Hl'|Hl'];
      destruct (decide (x ∈ y :: l)) as [Hin|Hnin]; try (unfold fmap; lia).
    + exfalso. apply Hnin. by right.
    + apply elem_of_cons in Hin as [->|]; done.
Qed.

Lemma filter_eq_notin {A} `{EqDecision A} (x : A) (l : list A) :
  x ∉ l → filter (λ y, y = x) l = [].
Proof.
  induction l as [|y l IH]; [done|]. intros [Hne Hnin]%not_elem_of_cons.
  rewrite filter_cons, decide_False by done. by apply IH.
Qed.

Lemma sum_list_cons (a : nat) (l : list nat) : sum_list (a :: l) = a + sum_list l.
Proof. reflexivity. Qed.

Lemma category_counts_sum cats :
  sum_list ((λ c, length (filter (λ x, x = c) cats)) <$> discover cats)
  = length cats.
Proof.
  induction cats as [|x cats IH]; [done|].
  set (g := λ c, length (filter (λ y, y = c) cats)) in *.
  assert (g x + sum_list (g <$> filter (λ y, y ≠ x) (discover cats))
          = length cats) as Hg.
  { rewrite <-IH, (sum_list_split_on g x _ (NoDup_discover cats)).
    destruct (decide (x ∈ discover cats)) as [|Hn]; [done|].
    assert (g x = 0) as ->; [|done]. unfold g.
    rewrite filter_eq_notin; [done|]. by rewrite <-elem_of_discover. }
  cbn [discover]. rewrite fmap_cons, sum_list_cons.
  rewrite filter_cons, decide_True by done. cbn [length].
  rewrite <-Hg. change (S (?a + ?b)) with (S a + b). f_equal. f_equal.
  apply list_fmap_ext.
  intros i c Hc.
  apply list_elem_of_lookup_2, list_elem_of_filter in Hc as [Hne _].
  unfold g. by rewrite filter_cons, decide_False by done.
Qed.



Lemma rows_of_elem index cats c l : l ∈ rows_of index cats c → l ∈ index.
Proof.
  unfold rows_of.
  intros ([l' x] & -> & [_ Hin]%list_elem_of_filter)%list_elem_of_fmap.
  by eapply elem_of_zip_l.
Qed.

Lemma rows_of_cons l0 index c0 cats c :
  rows_of (l0 :: index) (c0 :: cats) c
  = (if decide (c0 = c) then [l0] else []) ++ rows_of index cats c.
Proof.
  unfold rows_of. simpl. rewrite filter_cons. simpl.
  by destruct (decide (c0 = c)).
Qed.

Lemma rows_labelled_cons {A} l0 index (x : A) xs l :
  rows_labelled (l0 :: index) (x :: xs) l
  = (if decide (l0 = l) then [x] else []) ++ rows_labelled index xs l.
Proof.
  unfold rows_labelled. simpl. rewrite filter_cons. simpl.
  by destruct (decide (l0 = l)).
Qed.

Lemma rows_labelled_nil_r {A} index l : rows_labelled index (@nil A) l = [].
Proof. unfold rows_labelled. by destruct index. Qed.

Lemma rows_labelled_notin {A} index (xs : list A) l :
  l ∉ index → rows_labelled index xs l = [].
Proof.
  revert xs. induction index as [|l0 index IH]; intros [|x xs] Hl; try done.
  apply not_elem_of_cons in Hl as [Hne Hl].
  rewrite rows_labelled_cons, decide_False by done. by apply IH.
Qed.

Lemma rows_labelled_length {A} index (xs : list A) l :
  NoDup index → length (rows_labelled index xs l) ≤ 1.
Proof.
  intros Hnd. revert xs. induction Hnd as [|l0 index Hl0 Hnd IH]; intros [|x xs];
    try (by rewrite ?rows_labelled_nil_r; simpl; lia).
  rewrite rows_labelled_cons. destruct (decide (l0 = l)) as [->|].
  - rewrite rows_labelled_notin by done. simpl. lia.
  - apply IH.
Qed.

Lemma loc_rows_ok df idx_vals col rows :
  loc_rows df idx_vals col = Ok rows ↔
  ∃ vals, value_columns df !! col = Some vals ∧
          Forall (λ l, rows_labelled (df_index df) vals l ≠ []) idx_vals ∧
          rows = concat ((λ l, pair l <$> rows_labelled (df_index df) vals l)
                           <$> idx_vals).
Proof.
  unfold loc_rows, column. rewrite bind_ok. split.
  - intros (vals & Hv%getitem_ok & (picked & Hm%mapM_ok_Forall2 & [= <-])%bind_ok).
    exists vals. split; [done|]. clear Hv.
    induction Hm as [|l vs ls picked Hl _ [IH1 IH2]]; [done|].
    destruct (rows_labelled _ vals l) as [|v vs'] eqn:Hrows; [done|].
    injection Hl as <-. split.
    + constructor; [by rewrite Hrows | done].
    + rewrite fmap_cons. cbn [concat]. by rewrite Hrows, IH2.
  - intros (vals & Hv & Hall & ->). exists vals. split; [by apply getitem_ok|].
    apply bind_ok. eexists. split; [|done].
    apply mapM_ok_Forall2, Forall2_fmap_r, Forall_Forall2_diag.
    eapply Forall_impl; [exact Hall|]. simpl. intros l Hl.
    by destruct (rows_labelled _ vals l).
Qed.

Lemma concat_pair_snd {A B} (f : A → list B) ls :
  (concat ((λ l, pair l <$> f l) <$> ls)).*2 = concat (f <$> ls).
Proof.
  induction ls as [|l ls IH]; [done|].
  rewrite !fmap_cons. cbn [concat]. rewrite fmap_app, IH. f_equal.
  induction (f l) as [|y ys IHy]; [done|]. rewrite !fmap_cons. by f_equal.
Qed.

Lemma loc_ok df idx_vals col data :
  loc df idx_vals col = Ok data ↔
  ∃ vals, value_columns df !! col = Some vals ∧
          Forall (λ l, rows_labelled (df_index df) vals l ≠ []) idx_vals ∧
          data = concat (rows_labelled (df_index df) vals <$> idx_vals).
Proof.
  unfold loc. rewrite bind_ok. split.
  - intros (rows & (vals & Hv & Hall & ->)%loc_rows_ok & [= <-]).
    exists vals. by rewrite concat_pair_snd.
  - intros (vals & Hv & Hall & ->). eexists. split.
    + apply loc_rows_ok. by exists vals.
    + by rewrite concat_pair_snd.
Qed.

Lemma same_group_rows df col gb cats label data :
  label_columns df !! gb = Some cats →
  same_group df col (Some gb) label data →
  label ∈ cats ∧ loc df (rows_of (df_index df) cats label) col = Ok data.
Proof. intros Hc (cats' & Hc' & Hin & Hloc). by simplify_eq. Qed.

Lemma filter_eq_elem {A} `{EqDecision A} (x : A) (l : list A) :
  x ∈ l → 0 < length (filter (λ y, y = x) l).
Proof.
  intros Hin. assert (x ∈ filter (λ y, y = x) l) as H by (by apply list_elem_of_filter).
  destruct (filter _ l); [by apply elem_of_nil in H | simpl; lia].
Qed.

Lemma concat_length_ge {A B} (f : A → list B) ls :
  Forall (λ l, f l ≠ []) ls → length ls ≤ length (concat (f <$> ls)).
Proof.
  induction 1 as [|l ls Hl _ IH]; [done|].
  rewrite fmap_cons. cbn [concat]. rewrite length_app. simpl.
  destruct (f l); [done|]. simpl. lia.
Qed.

Lemma concat_length_le {A B} (f : A → list B) ls :
  (∀ l, length (f l) ≤ 1) → length (concat (f <$> ls)) ≤ length ls.
Proof.
  intros Hf. induction ls as [|l ls IH]; [done|].
  rewrite fmap_cons. cbn [concat]. rewrite length_app. simpl.
  specialize (Hf l). lia.
Qed.

Lemma sum_list_le xs ys :
  Forall2 (λ a b, a ≤ b) xs ys → sum_list xs ≤ sum_list ys.
Proof. induction 1; simpl; lia. Qed.

(** X6: with a group column on a table whose index is as long as the column,
    no data list is empty and the sizes of the data lists add up to at least
    the number of rows; they add up to exactly that number when the row
    labels are pairwise distinct. *)
Theorem group_sizes_add_up df col gb group_order reverse label_names plot_data
    cats :
  extract_groups df col (Some gb) group_order reverse = Ok (label_names, plot_data) →
  label_columns df !! gb = Some cats →
  length (df_index df) = length cats →
  Forall (λ data, data ≠ []) plot_data ∧
  length cats ≤ sum_list (length <$> plot_data) ∧
  (NoDup (df_index df) → sum_list (length <$> plot_data) = length cats).
Proof.
  intros He Hc Hlen.
  destruct (extract_groups_labels_perm _ _ _ _ _ _ _ He) as (cats' & Hc' & Hperm).
  simplify_eq.
  pose proof (extract_groups_aligned _ _ _ _ _ _ _ He) as Hal.
  set (count := λ l, length (filter (λ x, x = l) cats)).
  assert (Forall2 (λ l data, l ∈ cats ∧ count l ≤ length data ∧
                     (NoDup (df_index df) → length data = count l))
            label_names plot_data) as Hsizes.
  { eapply Forall2_impl; [exact Hal|]. simpl. intros l data Hsame.
    destruct (same_group_rows _ _ _ _ _ _ Hc Hsame) as [Hin Hloc]. split; [done|].
    apply loc_ok in Hloc as (vals & _ & Hrows & ->). unfold count.
    rewrite <-(rows_of_length (df_index df)) by done.
    pose proof (concat_length_ge _ _ Hrows) as Hge. split; [done|].
    intros Hnd.
    pose proof (concat_length_le (rows_labelled (df_index df) vals)
                  (rows_of (df_index df) cats l)
                  (λ l', rows_labelled_length _ vals l' Hnd)) as Hle.
    lia. }
  assert (sum_list (count <$> label_names) = length cats) as Hcount.
  { rewrite Hperm. apply category_counts_sum. }
  split; [|split].
  - eapply Forall2_Forall_r; [exact Hsizes|]. apply Forall_forall.
    intros l _ data (Hin & Hge & _) ->. simpl in Hge.
    pose proof (filter_eq_elem l cats Hin). unfold count in Hge. lia.
  - rewrite <-Hcount. apply sum_list_le, Forall2_fmap.
    eapply Forall2_impl; [exact Hsizes|]. simpl. by intros l data (_ & Hge & _).
  - intros Hnd. rewrite <-Hcount. f_equal.
    apply list_eq_Forall2, Forall2_fmap, Forall2_flip.
    eapply Forall2_impl; [exact Hsizes|]. simpl. intros l data (_ & _ & Heq).
    by rewrite Heq.
Qed.

(** rows of one label and the values they hold *)
Lemma concat_fmap_nil {A B} (f : A → list B) ls :
  (∀ l, l ∈ ls → f l = []) → concat (f <$> ls) = [].
Proof.
  induction ls as [|l ls IH]; intros Hf; [done|].
  rewrite fmap_cons. cbn [concat]. rewrite Hf by left. simpl.
  apply IH. intros l' Hl'. apply Hf. by right.
Qed.

Lemma rows_values index cats (vals : list Qc) label :
  NoDup index → length index = length cats →
  concat (rows_labelled index vals <$> rows_of index cats label)
  = values_of_label cats vals label.
Proof.
  intros Hnd. revert cats vals.
  induction Hnd as [|l0 index Hl0 Hnd IH]; intros [|c0 cats] vals Hlen;
    simplify_eq/=; [done|].
  destruct vals as [|v0 vals].
  { rewrite concat_fmap_nil; [done|]. intros l _. apply rows_labelled_nil_r. }
  rewrite rows_of_cons, fmap_app, concat_app.
  assert (rows_labelled (l0 :: index) (v0 :: vals) <$> rows_of index cats label
          = rows_labelled index vals <$> rows_of index cats label) as ->.
  { apply list_fmap_ext. intros i l Hl%list_elem_of_lookup_2%rows_of_elem.
    rewrite rows_labelled_cons, decide_False; [done|]. by intros ->. }
  rewrite (IH cats vals Hlen). unfold values_of_label. simpl. rewrite filter_cons. simpl.
  destruct (decide (c0 = label)) as [->|Hne]; [|done].
  simpl. rewrite rows_labelled_cons, decide_True by done.
  by rewrite rows_labelled_notin.
Qed.

(** X20: with a group column on a table whose row labels are pairwise
    distinct (and as many as the rows of the column), the data list at each
    position holds exactly the values of the rows whose category is the
    label at that position, in stored order; on a table where two rows share
    a row label a data list also holds values of rows of other categories. *)
Theorem group_data_are_rows_of_label df col gb group_order reverse
    label_names plot_data cats vals :
  (extract_groups df col (Some gb) group_order reverse = Ok (label_names, plot_data) →
   label_columns df !! gb = Some cats →
   value_columns df !! col = Some vals →
   length (df_index df) = length cats →
   NoDup (df_index df) →
   Forall2 (λ label data, data = values_of_label cats vals label)
     label_names plot_data) ∧
  extract_groups shared_labels_table "v" (Some "g") GO_None false
  = Ok (["a"; "b"], [[qz 1; qz 2; qz 3]; [qz 1; qz 2]]).
Proof.
  split; [|vm_compute; reflexivity].
  intros He Hc Hv Hlen Hnd.
  pose proof (extract_groups_aligned _ _ _ _ _ _ _ He) as Hal.
  eapply Forall2_impl; [exact Hal|]. simpl. intros l data Hsame.
  destruct (same_group_rows _ _ _ _ _ _ Hc Hsame) as [_ Hloc].
  apply loc_ok in Hloc as (vals' & Hv' & _ & ->). simplify_eq.
  by apply rows_values.
Qed.

Lemma extract_groups_empty df col gb group_order reverse :
  label_columns df !! gb = Some [] →
  recognised_group_order gb group_order →
  extract_groups df col (Some gb) group_order reverse = Ok ([], []).
Proof.
  intros Hc Hgo. unfold extract_groups, group_lists, group_series, groupby_groups, getitem.
  destruct group_order as [| |n| |]; simpl in Hgo; try done; try subst n;
    rewrite ?Hc; try (destruct (decide (gb = gb)); [|done]); rewrite ?Hc; by destruct reverse.
Qed.

(** X7: a grouped call on a table without rows, with scale_clouds = 'max',
    ends in the ValueError of [max] on an empty sequence, before any drawing
    call; the data-list sequence is empty only in that situation, and on a
    non-empty one mode "max" returns its factors. *)
Theorem max_scaling_needs_a_group uniform df col ax group_by group_order reverse
    vert box_kwargs cloud_kwargs log :
  (∀ gb, group_by = Some gb → label_columns df !! gb = Some [] →
     recognised_group_order gb group_order →
     pyplot_cloud df col ax group_by group_order reverse (SC_Str "max") vert
       box_kwargs cloud_kwargs log = (log, Raise ValueError_max_empty) ∧
     pyplot_raincloud uniform df col ax group_by group_order reverse
       (SC_Str "max") vert box_kwargs cloud_kwargs log
     = (log, Raise ValueError_max_empty)) ∧
  (∀ label_names plot_data,
     extract_groups df col group_by group_order reverse
     = Ok (label_names, plot_data) →
     (plot_data = [] ↔
      ∃ gb, group_by = Some gb ∧ label_columns df !! gb = Some []) ∧
     (plot_data ≠ [] →
      is_ok (get_scalars (SC_Str "max") label_names plot_data) = true)).
Proof.
  split.
  - intros gb -> Hc Hgo.
    eapply get_scalars_fails; [by apply extract_groups_empty|done].
  - intros label_names plot_data He. split; [|intros Hne; by rewrite get_scalars_max].
    destruct group_by as [gb|].
    + destruct (extract_groups_labels_perm _ _ _ _ _ _ _ He) as (cats & Hc & Hperm).
      pose proof (Forall2_length _ _ _ (extract_groups_aligned _ _ _ _ _ _ _ He)) as Hlen.
      split.
      * intros ->. exists gb. split; [done|]. rewrite Hc. f_equal.
        destruct label_names; [|done]. apply Permutation_nil in Hperm.
        destruct cats; [done|discriminate].
      * intros (gb' & [= <-] & Hc'). simplify_eq. simpl in Hperm.
        apply Permutation_nil_r in Hperm. subst. by destruct plot_data.
    + simpl in He. apply bind_ok in He as (vals & _ & [= <- <-]).
      split; [done|]. by intros (gb & ? & _).
Qed.

Lemma mapM_getitem_first_missing {V} (d : gmap string V) pre l post :
  Forall (λ x, is_Some (d !! x)) pre → d !! l = None →
  mapM (getitem d) (pre ++ l :: post) = Raise (KeyError l).
Proof.
  intros Hpre Hl. induction Hpre as [|x pre [v Hx] _ IH].
  - cbn [app]. rewrite mapM_cons. unfold getitem at 1. by rewrite Hl.
  - cbn [app]. rewrite mapM_cons. unfold getitem at 1. rewrite Hx. cbn [bind].
    by rewrite IH.
Qed.

(** X8: when the ordering map lacks a discovered label, both entry points end
    in the KeyError of the first such label in discovery order, for both
    settings of reverse and before any drawing call. *)
Theorem ordering_map_missing_label uniform df col ax gb ordinals reverse
    scale_clouds vert box_kwargs cloud_kwargs log cats series pre l post :
  label_columns df !! gb = Some cats →
  group_series df col gb = Ok series →
  discover cats = pre ++ l :: post →
  Forall (λ x, is_Some (ordinals !! x)) pre →
  ordinals !! l = None →
  pyplot_cloud df col ax (Some gb) (GO_Dict ordinals) reverse scale_clouds vert
    box_kwargs cloud_kwargs log = (log, Raise (KeyError l)) ∧
  pyplot_raincloud uniform df col ax (Some gb) (GO_Dict ordinals) reverse
    scale_clouds vert box_kwargs cloud_kwargs log = (log, Raise (KeyError l)).
Proof.
  intros Hc Hs Hd Hpre Hl. apply extract_fails. unfold extract_groups.
  rewrite Hs. cbn [bind]. unfold sorted.
  apply group_series_ok in Hs as (cats' & Hc' & Hnames & _). simplify_eq.
  rewrite (mapM_fmap (getitem ordinals) name), Hnames, Hd.
  by rewrite mapM_getitem_first_missing.
Qed.

(** X18: without a group column there is exactly one group, labelled with the
    name of the value column and holding the whole column, whatever
    group_order and reverse are (an unrecognised group_order included); its
    scale factor is 1 without scaling and in mode "max". *)
Theorem ungrouped_single_group df col vals group_order reverse :
  value_columns df !! col = Some vals →
  extract_groups df col None group_order reverse = Ok ([col], [vals]) ∧
  get_scalars SC_None [col] [vals] = Ok [1%Qc] ∧
  get_scalars (SC_Str "max") [col] [vals] = Ok [1%Qc].
Proof.
  intros Hv. split; [|split; [done|]].
  - simpl. unfold column, getitem. by rewrite Hv.
  - rewrite get_scalars_max by done. simpl. rewrite decide_True; [done|].
    unfold largest_size. simpl. lia.
Qed.

Lemma mapM_head_fails {A B} (f : A → result B) x l e :
  f x = Raise e → mapM f (x :: l) = Raise e.
Proof. intros H. by rewrite mapM_cons, H. Qed.

(** X19: a value column that is missing (without a group column, or with a
    group column that has at least one row) and a group column that is
    missing each end the call in the KeyError of that column name, before
    any drawing call. *)
Theorem missing_columns_raise_key_error uniform df col ax group_order reverse
    scale_clouds vert box_kwargs cloud_kwargs log :
  (value_columns df !! col = None →
     pyplot_cloud df col ax None group_order reverse scale_clouds vert
       box_kwargs cloud_kwargs log = (log, Raise (KeyError col)) ∧
     pyplot_raincloud uniform df col ax None group_order reverse scale_clouds
       vert box_kwargs cloud_kwargs log = (log, Raise (KeyError col))) ∧
  (∀ gb, label_columns df !! gb = None →
     recognised_group_order gb group_order →
     pyplot_cloud df col ax (Some gb) group_order reverse scale_clouds vert
       box_kwargs cloud_kwargs log = (log, Raise (KeyError gb)) ∧
     pyplot_raincloud uniform df col ax (Some gb) group_order reverse
       scale_clouds vert box_kwargs cloud_kwargs log
     = (log, Raise (KeyError gb))) ∧
  (∀ gb c cats, label_columns df !! gb = Some (c :: cats) →
     value_columns df !! col = None →
     recognised_group_order gb group_order →
     pyplot_cloud df col ax (Some gb) group_order reverse scale_clouds vert
       box_kwargs cloud_kwargs log = (log, Raise (KeyError col)) ∧
     pyplot_raincloud uniform df col ax (Some gb) group_order reverse
       scale_clouds vert box_kwargs cloud_kwargs log
     = (log, Raise (KeyError col))).
Proof.
  split; [|split].
  - intros Hv. apply extract_fails. simpl. unfold column, getitem. by rewrite Hv.
  - intros gb Hc Hgo. apply extract_fails.
    unfold extract_groups, group_lists, group_series, groupby_groups, getitem.
    destruct group_order as [| |n| |]; simpl in Hgo; try done; try subst n;
      rewrite ?Hc; try (destruct (decide (gb = gb)); [|done]); by rewrite ?Hc.
  - intros gb c cats Hc Hv Hgo. apply extract_fails.
    assert (group_lists df col gb = Raise (KeyError col)) as Hl.
    { unfold group_lists, groupby_groups, getitem. rewrite Hc. cbn [bind discover fmap list_fmap].
      apply mapM_head_fails. unfold loc, loc_rows, column, getitem. by rewrite Hv. }
    assert (group_series df col gb = Raise (KeyError col)) as Hs.
    { unfold group_series, groupby_groups, getitem. rewrite Hc. cbn [bind discover fmap list_fmap].
      apply mapM_head_fails. unfold loc_rows, column, getitem. by rewrite Hv. }
    unfold extract_groups.
    destruct group_order as [| |n| |]; simpl in Hgo; try done; try subst n;
      try (destruct (decide (gb = gb)); [|done]); by rewrite ?Hl, ?Hs.
Qed.


(** ** Order of the sorted modes *)

Lemma StronglySorted_rev {A} (R : relation A) (l : list A) :
  StronglySorted R l → StronglySorted (flip R) (rev l).
Proof.
  induction 1 as [|x l Hl IH Hx]; simpl; [constructor|].
  apply StronglySorted_app_2; [|done|repeat constructor].
  intros y z Hy ->%list_elem_of_singleton. unfold flip.
  rewrite Forall_forall in Hx. apply Hx. by rewrite <-elem_of_reverse, <-rev_reverse.
Qed.

Section stable_order.
Context {A : Type}.

Lemma insert_by_sorted_le (x : Z * A) l :
  StronglySorted key_le l → StronglySorted key_le (insert_by Z.ltb x l).
Proof.
  induction l as [|y l IH]; simpl; intros Hl; [repeat constructor|].
  apply StronglySorted_inv in Hl as [Hl Hy].
  destruct (Z.ltb_spec y.1 x.1) as [Hlt|Hge].
  - constructor; [by apply IH|]. rewrite insert_by_perm.
    constructor; [unfold key_le; lia | done].
  - constructor; [by constructor|]. constructor; [done|].
    eapply Forall_impl; [exact Hy|]. unfold key_le. intros z Hz. lia.
Qed.

Lemma stable_sort_sorted_le (l : list (Z * A)) : StronglySorted key_le (stable_sort Z.ltb l).
Proof.
  induction l as [|x l IH]; simpl; [constructor|]. by apply insert_by_sorted_le.
Qed.

Lemma insert_by_filter (k : Z) (x : Z * A) l :
  filter (λ y, y.1 = k) (insert_by Z.ltb x l) = filter (λ y, y.1 = k) (x :: l).
Proof.
  induction l as [|y l IH]; simpl; [done|].
  destruct (Z.ltb_spec y.1 x.1) as [Hlt|Hge]; [|done].
  rewrite (filter_cons _ y), IH, !(filter_cons _ x), (filter_cons _ y).
  destruct (decide (y.1 = k)), (decide (x.1 = k)); try done. lia.
Qed.

Lemma stable_sort_filter (k : Z) (l : list (Z * A)) :
  filter (λ y, y.1 = k) (stable_sort Z.ltb l) = filter (λ y, y.1 = k) l.
Proof.
  induction l as [|x l IH]; simpl; [done|].
  by rewrite insert_by_filter, !filter_cons, IH.
Qed.

Lemma sort_decorated_filter (k : Z) (reverse : bool) (l : list (Z * A)) :
  filter (λ y, y.1 = k) (sort_decorated Z.ltb reverse l) = filter (λ y, y.1 = k) l.
Proof.
  unfold sort_decorated. destruct reverse; [|apply stable_sort_filter].
  rewrite !rev_reverse, filter_reverse, stable_sort_filter, filter_reverse.
  apply reverse_involutive.
Qed.

Lemma sort_decorated_sorted (reverse : bool) (l : list (Z * A)) :
  StronglySorted (if reverse then flip key_le else key_le)
    (sort_decorated Z.ltb reverse l).
Proof.
  unfold sort_decorated. destruct reverse; [|apply stable_sort_sorted_le].
  apply StronglySorted_rev, stable_sort_sorted_le.
Qed.

(** What [sorted] returns, by a key that never fails. *)
Lemma sorted_by_total_key (key : A → result Z) (kf : A → Z)
    (reverse : bool) (xs ys : list A) :
  (∀ x, x ∈ xs → key x = Ok (kf x)) →
  sorted Z.ltb key reverse xs = Ok ys →
  ys ≡ₚ xs ∧
  StronglySorted (if reverse then flip Z.le else Z.le) (kf <$> ys) ∧
  ∀ k, filter (λ y, kf y = k) ys = filter (λ y, kf y = k) xs.
Proof.
  intros Hkey Hs. split; [by eapply sorted_perm|].
  unfold sorted in Hs. rewrite (mapM_ext_in _ (λ x, Ok (kf x))) in Hs by done.
  rewrite mapM_pure in Hs. cbn [bind] in Hs. injection Hs as <-.
  set (dec := zip (kf <$> xs) xs).
  assert (dec = (λ x, (kf x, x)) <$> xs) as Hdec.
  { unfold dec. clear. induction xs as [|x xs IH]; [done|]. simpl. by f_equal. }
  assert (Forall (λ kx, kx.1 = kf kx.2) (sort_decorated Z.ltb reverse dec)) as Hinv.
  { rewrite sort_decorated_perm, Hdec. apply Forall_fmap. by apply Forall_true. }
  assert (∀ (l : list (Z * A)), Forall (λ kx, kx.1 = kf kx.2) l →
            kf <$> l.*2 = l.*1 ∧
            ∀ k, filter (λ y, kf y = k) l.*2 = (filter (λ kx, kx.1 = k) l).*2) as Hgen.
  { clear. induction 1 as [|[k' x] l Hx Hl [IH1 IH2]]; [done|].
    simpl in Hx. subst k'. rewrite !fmap_cons. cbn [fst snd]. split.
    - by rewrite ?fmap_cons, IH1.
    - intros k. rewrite !filter_cons. cbn [fst snd].
      destruct (decide (kf x = k)); rewrite ?fmap_cons; by rewrite IH2. }
  destruct (Hgen _ Hinv) as [Hkeys Hfilter]. split.
  - rewrite Hkeys.
    pose proof (sort_decorated_sorted reverse dec) as Hsorted.
    destruct reverse; by apply (StronglySorted_fmap fst _ _ _ (λ x y H, H)).
  - intros k. rewrite Hfilter, sort_decorated_filter.
    assert (Forall (λ kx, kx.1 = kf kx.2) dec) as Hinv'
      by (rewrite Hdec; apply Forall_fmap; by apply Forall_true).
    destruct (Hgen _ Hinv') as [_ Hfilter']. rewrite <-Hfilter'.
    f_equal. unfold dec. apply snd_zip. by rewrite length_fmap.
Qed.
End stable_order.



Lemma filter_fmap {A B} (f : A → B) (P : B → Prop) `{!∀ y, Decision (P y)}
    (l : list A) :
  filter P (f <$> l) = f <$> filter (λ x, P (f x)) l.
Proof.
  induction l as [|x l IH]; [done|]. rewrite fmap_cons, !filter_cons.
  destruct (decide (P (f x))); by rewrite ?fmap_cons, IH.
Qed.

Lemma filter_ext_in {A} (P Q : A → Prop) `{!∀ x, Decision (P x), !∀ x, Decision (Q x)}
    (l : list A) :
  (∀ x, x ∈ l → P x ↔ Q x) → filter P l = filter Q l.
Proof.
  induction l as [|x l IH]; intros Hext; [done|]. rewrite !filter_cons.
  assert (filter P l = filter Q l) as ->
    by (apply IH; intros y Hy; apply Hext; by right).
  pose proof (Hext x (list_elem_of_here _ _)) as Hx.
  destruct (decide (P x)) as [HP|HP], (decide (Q x)) as [HQ|HQ]; try done.
  - exfalso. by apply HQ, Hx.
  - exfalso. by apply HP, Hx.
Qed.

(** X16: with an explicit map or a key function, the sort keys along the
    output never decrease (never increase when reverse is set), and for
    every key value the groups with that key come in discovery order, under
    both settings of reverse. *)
Theorem keyed_ordering_sorted_and_stable df col gb (reverse : bool)
    label_names plot_data :
  (∀ ordinals,
     extract_groups df col (Some gb) (GO_Dict ordinals) reverse
     = Ok (label_names, plot_data) →
     ∃ cats keys,
       label_columns df !! gb = Some cats ∧
       Forall2 (λ l k, ordinals !! l = Some k) label_names keys ∧
       StronglySorted (if reverse then flip Z.le else Z.le) keys ∧
       ∀ k, filter (λ l, ordinals !! l = Some k) label_names
            = filter (λ l, ordinals !! l = Some k) (discover cats)) ∧
  (∀ f,
     extract_groups df col (Some gb) (GO_Callable f) reverse
     = Ok (label_names, plot_data) →
     ∃ series ordered,
       group_series df col gb = Ok series ∧
       label_names = name <$> ordered ∧
       plot_data = values <$> ordered ∧
       StronglySorted (if reverse then flip Z.le else Z.le) (f <$> ordered) ∧
       ∀ k, filter (λ el, f el = k) ordered = filter (λ el, f el = k) series).
Proof.
  split.
  - intros ordinals He. unfold extract_groups in He.
    apply bind_ok in He as (series & Hs & He).
    apply bind_ok in He as (ordered & Hsort & [= <- <-]).
    destruct (group_series_ok _ _ _ _ Hs) as (cats & Hc & Hnames & _).
    set (kf := λ el : Series, default 0%Z (ordinals !! name el)).
    assert (∀ el, el ∈ series → getitem ordinals (name el) = Ok (kf el)) as Hkey.
    { pose proof Hsort as Hm. unfold sorted in Hm.
      apply bind_ok in Hm as (keys & Hm%mapM_ok_Forall2 & _).
      intros el (i & Hi)%list_elem_of_lookup.
      destruct (Forall2_lookup_l _ _ _ _ _ Hm Hi) as (k & _ & Hk).
      rewrite Hk. apply getitem_ok in Hk. unfold kf. by rewrite Hk. }
    destruct (sorted_by_total_key _ kf _ _ _ Hkey Hsort) as (Hperm & Hsorted & Hstable).
    assert (∀ el, el ∈ ordered → ordinals !! name el = Some (kf el)) as Hkey'.
    { intros el Hel. apply getitem_ok, Hkey. by rewrite <-Hperm. }
    exists cats, (kf <$> ordered). split; [done|]. split; [|split; [done|]].
    + apply Forall2_fmap, Forall_Forall2_diag, Forall_forall. exact Hkey'.
    + intros k. rewrite <-Hnames, !filter_fmap. f_equal.
      rewrite (filter_ext_in _ (λ el, kf el = k) ordered).
      * rewrite Hstable. apply filter_ext_in. intros el Hel.
        pose proof (Hkey _ Hel) as Hk. apply getitem_ok in Hk. rewrite Hk.
        split; [by intros <- | by intros [= <-]].
      * intros el Hel. rewrite (Hkey' _ Hel).
        split; [by intros [= <-] | by intros <-].
  - intros f He. unfold extract_groups in He.
    apply bind_ok in He as (series & Hs & He).
    apply bind_ok in He as (ordered & Hsort & [= <- <-]).
    destruct (sorted_by_total_key (λ el, Ok (f el)) f _ _ _ (λ _ _, eq_refl) Hsort)
      as (Hperm & Hsorted & Hstable).
    by exists series, ordered.
Qed.

Lemma zip_diag {A} (l : list A) : Forall (λ kx, kx.1 = kx.2) (zip l l).
Proof. induction l; by constructor. Qed.

(** X17: with ordering by label, the labels come strictly increasing in the
    order of Python strings; with reverse set, strictly decreasing. *)
Theorem label_ordering_is_alphabetic df col gb (reverse : bool)
    label_names plot_data :
  extract_groups df col (Some gb) (GO_Name gb) reverse
  = Ok (label_names, plot_data) →
  StronglySorted (λ a b, String.ltb a b = true)
    (if reverse then rev label_names else label_names).
Proof.
  unfold extract_groups. destruct (decide (gb = gb)) as [_|]; [|done].
  intros (pd & (cats & _ & Hkeys & _)%group_lists_ok & Hsort)%bind_ok.
  apply bind_ok in Hsort as (labels & Hsort & Hdata).
  apply bind_ok in Hdata as (data & _ & [= <- <-]).
  unfold sorted in Hsort. rewrite mapM_Ok in Hsort. cbn [bind] in Hsort.
  injection Hsort as <-. rewrite Hkeys.
  set (l := discover cats).
  assert (∀ d : list (string * string),
            Forall (λ kx, kx.1 = kx.2) d → NoDup d.*1 →
            StronglySorted (λ a b, String.ltb a b = true)
              (stable_sort String.ltb d).*2) as Hgen.
  { intros d Hinv Hnd.
    assert ((stable_sort String.ltb d).*2 = (stable_sort String.ltb d).*1) as ->.
    { apply Forall_fmap_ext. rewrite stable_sort_perm.
      eapply Forall_impl; [exact Hinv|]. by intros kx ->. }
    apply (StronglySorted_fmap fst (key_lt String.ltb)); [by intros x y H|].
    apply stable_sort_sorted;
      [apply string_ltb_trans | apply string_ltb_total | exact Hnd]. }
  pose proof (zip_diag l) as Hinv.
  assert ((zip l l).*1 = l) as Hfst by (by apply fst_zip).
  unfold sort_decorated. destruct reverse.
  - rewrite !rev_reverse, fmap_reverse, reverse_involutive. apply Hgen.
    + by apply Forall_reverse.
    + rewrite fmap_reverse, Hfst, reverse_Permutation. apply NoDup_discover.
  - apply Hgen; [done|]. rewrite Hfst. apply NoDup_discover.
Qed.


(** ** Worked instances *)

Lemma example_groups_ok :
  extract_groups example_table "v" (Some "g") GO_None false = Ok example_groups.
Proof. vm_compute. reflexivity. Qed.

Lemma example_scalars_ok :
  get_scalars SC_None example_groups.1 example_groups.2 = Ok [1%Qc; 1%Qc].
Proof. reflexivity. Qed.

Lemma box_overrides_precedence_witness :
  ∃ m,
    (pyplot_cloud example_table "v" blank_axes (Some "g") GO_None false SC_None
       false (KW_Dict red_boxes) KW_None []).1 !! 0 = Some (Boxplot m) ∧
    m !! "labels" = Some (py_labels ["b"; "a"]) ∧
    m !! "widths" = Some (PyNum (Q2Qc (1 # 2))) ∧
    m !! "showmeans" = Some (PyBool true).
Proof.
  destruct (box_overrides_precedence no_jitter example_table "v" blank_axes
              (Some "g") GO_None false SC_None false red_boxes KW_None []
              ["b"; "a"] [[qz 1; qz 2]; [qz 3; qz 4; qz 5]] [1%Qc; 1%Qc]
              example_groups_ok example_scalars_ok)
    as (m & Hc & _ & Hl & _ & _ & Hrest).
  exists m. split; [exact Hc|]. split; [exact Hl|]. split.
  - by rewrite (Hrest "widths").
  - by rewrite (Hrest "showmeans").
Defined.

Lemma violin_overrides_precedence_witness :
  ∃ m,
    (pyplot_raincloud no_jitter example_table "v" blank_axes (Some "g") GO_None
       false SC_None false KW_None
       (KW_Dict {[ "widths" := PyNum (Q2Qc (1 # 2)); "vert" := PyBool true ]})
       []).1 !! 1 = Some (Violinplot m) ∧
    m !! "vert" = Some (PyBool false) ∧
    m !! "widths" = Some (PyNum (Q2Qc (1 # 2))) ∧
    m !! "showextrema" = Some (PyBool false).
Proof.
  destruct (violin_overrides_precedence no_jitter example_table "v" blank_axes
              (Some "g") GO_None false SC_None false KW_None
              {[ "widths" := PyNum (Q2Qc (1 # 2)); "vert" := PyBool true ]} []
              ["b"; "a"] [[qz 1; qz 2]; [qz 3; qz 4; qz 5]] [1%Qc; 1%Qc]
              example_groups_ok example_scalars_ok)
    as (m & _ & Hr & _ & Hv & Hrest); [discriminate|].
  exists m. split; [exact Hr|]. split; [exact Hv|]. split.
  - by rewrite (Hrest "widths").
  - by rewrite (Hrest "showextrema").
Defined.

Lemma scale_factors_in_unit_interval_witness :
  Forall in_unit_interval [1%Qc; Q2Qc (1 # 4)] ∧ 1%Qc ∈ [1%Qc; Q2Qc (1 # 4)].
Proof.
  assert (get_scalars (SC_Str "max") ["a"; "b"]
            [replicate 4 (qz 7); replicate 1 (qz 9)]
          = Ok [1%Qc; Q2Qc (1 # 4)]) as Hs.
  { rewrite get_scalars_max by done. vm_compute.
    repeat f_equal; apply Qc_is_canon; reflexivity. }
  destruct (scale_factors_in_unit_interval _ _ _ _ Hs) as [Hall Hone].
  split; [exact Hall | exact (Hone eq_refl)].
Defined.

Lemma every_category_labels_one_group_witness :
  ∃ cats, label_columns example_table !! "g" = Some cats ∧
          NoDup ["a"; "b"] ∧ ∀ l, l ∈ ["a"; "b"] ↔ l ∈ cats.
Proof.
  apply (every_category_labels_one_group example_table "v" "g" (GO_Name "g")
           false ["a"; "b"] [[qz 3; qz 4; qz 5]; [qz 1; qz 2]]).
  vm_compute. reflexivity.
Defined.

Lemma group_sizes_add_up_witness :
  (Forall (λ data, data ≠ []) [[qz 3; qz 4; qz 5]; [qz 1; qz 2]] ∧
   sum_list (length <$> [[qz 3; qz 4; qz 5]; [qz 1; qz 2]])
   = length ["b"; "b"; "a"; "a"; "a"]) ∧
  length ["a"; "b"; "a"]
  ≤ sum_list (length <$> [[qz 1; qz 2; qz 3]; [qz 1; qz 2]]).
Proof.
  split.
  - destruct (group_sizes_add_up example_table "v" "g" (GO_Name "g") false
                ["a"; "b"] [[qz 3; qz 4; qz 5]; [qz 1; qz 2]]
                ["b"; "b"; "a"; "a"; "a"]) as (Hne & _ & Heq).
    + vm_compute. reflexivity.
    + reflexivity.
    + reflexivity.
    + split; [exact Hne|]. apply Heq.
      apply (bool_decide_unpack _). vm_compute. exact I.
  - apply (group_sizes_add_up shared_labels_table "v" "g" GO_None false
             ["a"; "b"] [[qz 1; qz 2; qz 3]; [qz 1; qz 2]] ["a"; "b"; "a"]).
    + vm_compute. reflexivity.
    + reflexivity.
    + reflexivity.
Defined.

Lemma group_data_are_rows_of_label_witness :
  Forall2 (λ label data,
             data = values_of_label ["b"; "b"; "a"; "a"; "a"]
                      [qz 1; qz 2; qz 3; qz 4; qz 5] label)
    ["a"; "b"] [[qz 3; qz 4; qz 5]; [qz 1; qz 2]].
Proof.
  apply (proj1 (group_data_are_rows_of_label example_table "v" "g"
                  (GO_Name "g") false ["a"; "b"]
                  [[qz 3; qz 4; qz 5]; [qz 1; qz 2]]
                  ["b"; "b"; "a"; "a"; "a"]
                  [qz 1; qz 2; qz 3; qz 4; qz 5])).
  - vm_compute. reflexivity.
  - reflexivity.
  - reflexivity.
  - reflexivity.
  - apply (bool_decide_unpack _). vm_compute. exact I.
Defined.


Lemma max_scaling_needs_a_group_witness :
  pyplot_cloud empty_table "v" blank_axes (Some "g") GO_None false
    (SC_Str "max") false KW_None KW_None []
  = ([], Raise ValueError_max_empty) ∧
  is_ok (get_scalars (SC_Str "max") example_groups.1 example_groups.2) = true.
Proof.
  split.
  - apply (proj1 (max_scaling_needs_a_group no_jitter empty_table "v" blank_axes
                    (Some "g") GO_None false false KW_None KW_None []) "g");
      [reflexivity | vm_compute; reflexivity | exact I].
  - apply (proj2 (max_scaling_needs_a_group no_jitter example_table "v" blank_axes
                    (Some "g") GO_None false false KW_None KW_None [])
             _ _ example_groups_ok).
    discriminate.
Defined.

Lemma ordering_map_missing_label_witness :
  pyplot_cloud example_table "v" blank_axes (Some "g")
    (GO_Dict {[ "b" := 1%Z ]}) true SC_None false KW_None KW_None []
  = ([], Raise (KeyError "a")).
Proof.
  apply (ordering_map_missing_label no_jitter example_table "v" blank_axes "g"
           {[ "b" := 1%Z ]} true SC_None false KW_None KW_None []
           ["b"; "b"; "a"; "a"; "a"]
           [ {| name := "b"; index := [RowInt 0; RowInt 1];
                values := [qz 1; qz 2] |};
             {| name := "a"; index := [RowInt 2; RowInt 3; RowInt 4];
                values := [qz 3; qz 4; qz 5] |} ]
           ["b"] "a" []).
  - vm_compute. reflexivity.
  - vm_compute. reflexivity.
  - vm_compute. reflexivity.
  - repeat constructor. by eexists.
  - vm_compute. reflexivity.
Defined.

Lemma unrecognised_arguments_rejected_witness :
  pyplot_cloud example_table "v" blank_axes (Some "g") (GO_Name "h") false
    SC_None false KW_None KW_None []
  = ([], Raise ValueError_group_order) ∧
  pyplot_cloud example_table "v" blank_axes (Some "g") GO_None false
    (SC_Str "min") false KW_None KW_None []
  = ([], Raise ValueError_scale_clouds) ∧
  pyplot_cloud example_table "v" blank_axes (Some "g") GO_None false
    SC_None false KW_Other KW_None []
  = ([], Raise ValueError_box_kwargs).
Proof.
  split; [|split].
  - apply (proj1 (unrecognised_arguments_rejected no_jitter example_table "v"
                    blank_axes (Some "g") (GO_Name "h") false SC_None false
                    KW_None KW_None []) "g" eq_refl).
    right. exists "h". split; [reflexivity | discriminate].
  - apply (proj1 (proj2 (unrecognised_arguments_rejected no_jitter example_table
                           "v" blank_axes (Some "g") GO_None false
                           (SC_Str "min") false KW_None KW_None []))
             _ example_groups_ok).
    right. exists "min". split; [reflexivity | discriminate].
  - apply (proj2 (proj2 (unrecognised_arguments_rejected no_jitter example_table
                           "v" blank_axes (Some "g") GO_None false SC_None
                           false KW_Other KW_None []))
             _ _ example_groups_ok example_scalars_ok eq_refl).
Defined.

Lemma cloud_kwargs_rejected_after_boxplot_witness :
  ∃ bp_kw,
    pyplot_raincloud no_jitter example_table "v" blank_axes (Some "g") GO_None
      false SC_None false KW_None KW_Other []
    = ([Boxplot bp_kw], Raise ValueError_cloud_kwargs).
Proof.
  eexists.
  apply (cloud_kwargs_rejected_after_boxplot no_jitter example_table "v"
           blank_axes (Some "g") GO_None false SC_None false KW_None []
           _ _ _ _ example_groups_ok example_scalars_ok eq_refl).
Defined.

Lemma pyplot_cloud_returns_witness :
  ∃ bp_kw vp_kw out,
    pyplot_cloud example_table "v" sample_axes (Some "g") GO_None false SC_None
      false KW_None KW_None []
    = ([Boxplot bp_kw; Violinplot vp_kw], Ok out) ∧
    length (cloud_cloud out) = 2.
Proof.
  destruct (pyplot_cloud_returns example_table "v" sample_axes (Some "g")
              GO_None false SC_None false KW_None KW_None [] _ _ _
              example_groups_ok example_scalars_ok)
    as (bp_kw & vp_kw & out & Hrun & _ & Hlen & _); [discriminate..|].
  exists bp_kw, vp_kw, out. split; [exact Hrun | exact Hlen].
Defined.

Lemma pyplot_raincloud_scatters_witness :
  ∃ bp_kw vp_kw calls out,
    pyplot_raincloud no_jitter example_table "v" sample_axes (Some "g") GO_None
      false SC_None false KW_None KW_None []
    = ([Boxplot bp_kw; Violinplot vp_kw] ++ calls, Ok out) ∧
    length calls = 2 ∧ (raincloud_scats out).*1 = [0; 1].
Proof.
  destruct (pyplot_raincloud_scatters no_jitter example_table "v" sample_axes
              (Some "g") GO_None false SC_None false KW_None KW_None [] _ _ _
              example_groups_ok example_scalars_ok)
    as (bp_kw & vp_kw & calls & out & Hrun & Hlen & Hkeys & _); [discriminate..|].
  exists bp_kw, vp_kw, calls, out. split; [exact Hrun|].
  split; [exact Hlen|]. rewrite Hkeys, Hlen. reflexivity.
Defined.

Lemma raincloud_extends_cloud_witness :
  match pyplot_cloud example_table "v" sample_axes (Some "g") GO_None false
          SC_None false KW_None (KW_Dict ∅) [] with
  | (log', Raise e) =>
      pyplot_raincloud no_jitter example_table "v" sample_axes (Some "g")
        GO_None false SC_None false KW_None (KW_Dict ∅) [] = (log', Raise e)
  | (log', Ok out) =>
      ∃ calls out',
        pyplot_raincloud no_jitter example_table "v" sample_axes (Some "g")
          GO_None false SC_None false KW_None (KW_Dict ∅) []
        = (log' ++ calls, Ok out') ∧
        Forall is_scatter calls ∧
        raincloud_box out' = cloud_box out ∧
        raincloud_cloud out' = cloud_cloud out
  end.
Proof.
  apply (raincloud_extends_cloud no_jitter example_table "v" sample_axes
           (Some "g") GO_None false SC_None false KW_None (KW_Dict ∅) []).
  discriminate.
Defined.

Lemma no_jitter_in_range : uniform_in_range no_jitter.
Proof.
  intros n size. unfold no_jitter. rewrite length_replicate. split; [done|].
  apply Forall_replicate. split; vm_compute; discriminate.
Qed.

Lemma scatter_jitter_in_range_witness :
  ∃ x y,
    example_groups.2 !! 1 = Some x ∧ length y = length x ∧
    Forall (λ v, (qnat 1 + Q2Qc (6 # 10) ≤ v)%Qc ∧
                 (v ≤ qnat 1 + Q2Qc (9 # 10))%Qc) y.
Proof.
  eexists _, _.
  eapply (scatter_jitter_in_range no_jitter example_table "v" sample_axes
            (Some "g") GO_None false SC_None false KW_None KW_None []
            _ _ _ 1 _ _ _ _ no_jitter_in_range example_groups_ok
            example_scalars_ok).
  vm_compute. reflexivity.
Defined.

Lemma half_violin_keeps_upper_half_witness :
  length (vertices (half_violin 0 (Q2Qc (1 # 2)) (sample_body 1))) = 3.
Proof.
  destruct (half_violin_keeps_upper_half 0 (Q2Qc (1 # 2)) (sample_body 1))
    as (_ & Hlen & _).
  - vm_compute. discriminate.
  - vm_compute. discriminate.
  - exact Hlen.
Defined.

Lemma keyed_ordering_sorted_and_stable_witness :
  ∃ cats keys,
    label_columns example_table !! "g" = Some cats ∧
    Forall2 (λ l k, ({[ "a" := 1%Z; "b" := 1%Z ]} : gmap string Z) !! l = Some k)
      ["b"; "a"] keys ∧
    StronglySorted (flip Z.le) keys ∧
    ∀ k, filter (λ l, ({[ "a" := 1%Z; "b" := 1%Z ]} : gmap string Z) !! l = Some k)
           ["b"; "a"]
         = filter (λ l, ({[ "a" := 1%Z; "b" := 1%Z ]} : gmap string Z) !! l = Some k)
             (discover cats).
Proof.
  apply (proj1 (keyed_ordering_sorted_and_stable example_table "v" "g" true
                  ["b"; "a"] [[qz 1; qz 2]; [qz 3; qz 4; qz 5]])
           {[ "a" := 1%Z; "b" := 1%Z ]}).
  vm_compute. reflexivity.
Defined.

Lemma label_ordering_is_alphabetic_witness :
  StronglySorted (λ a b, String.ltb a b = true) (rev ["b"; "a"]).
Proof.
  apply (label_ordering_is_alphabetic example_table "v" "g" true ["b"; "a"]
           [[qz 1; qz 2]; [qz 3; qz 4; qz 5]]).
  vm_compute. reflexivity.
Defined.

Lemma ungrouped_single_group_witness :
  extract_groups example_table "v" None GO_Other true
  = Ok (["v"], [[qz 1; qz 2; qz 3; qz 4; qz 5]]) ∧
  get_scalars SC_None ["v"] [[qz 1; qz 2; qz 3; qz 4; qz 5]] = Ok [1%Qc] ∧
  get_scalars (SC_Str "max") ["v"] [[qz 1; qz 2; qz 3; qz 4; qz 5]] = Ok [1%Qc].
Proof.
  apply (ungrouped_single_group example_table "v").
  vm_compute. reflexivity.
Defined.

Lemma missing_columns_raise_key_error_witness :
  pyplot_cloud example_table "w" blank_axes None GO_None false SC_None false
    KW_None KW_None [] = ([], Raise (KeyError "w")) ∧
  pyplot_cloud example_table "v" blank_axes (Some "h") GO_None false SC_None
    false KW_None KW_None [] = ([], Raise (KeyError "h")) ∧
  pyplot_cloud example_table "w" blank_axes (Some "g") GO_None false SC_None
    false KW_None KW_None [] = ([], Raise (KeyError "w")).
Proof.
  split; [|split].
  - apply (proj1 (missing_columns_raise_key_error no_jitter example_table "w"
                    blank_axes GO_None false SC_None false KW_None KW_None [])).
    vm_compute. reflexivity.
  - apply (proj1 (proj2 (missing_columns_raise_key_error no_jitter example_table
                           "v" blank_axes GO_None false SC_None false KW_None
                           KW_None [])) "h").
    + vm_compute. reflexivity.
    + exact I.
  - apply (proj2 (proj2 (missing_columns_raise_key_error no_jitter example_table
                           "w" blank_axes GO_None false SC_None false KW_None
                           KW_None [])) "g" "b" ["b"; "a"; "a"; "a"]).
    + vm_compute. reflexivity.
    + vm_compute. reflexivity.
    + exact I.
Defined.

(** ** The call of the example script *)

(** X21: called as the example script calls it (a value column, everything
    else left at its default), [pyplot_raincloud] returns; it draws the box
    plot of the one group labelled with the column name, asks for the violin
    with dataset and vert only, and, when the surface made a body, rewrites
    the first body with scale 1 and scatters the whole column once. *)
Theorem default_raincloud_call uniform df col ax vals log :
  value_columns df !! col = Some vals →
  let bodies := ax_violinplot ax
                  {[ "dataset" := py_data [vals]; "vert" := PyBool false ]} in
  ∃ bp_kw out,
    pyplot_raincloud uniform df col ax None GO_None false SC_None false
      KW_None KW_None log
    = (log ++ [Boxplot bp_kw;
               Violinplot {[ "dataset" := py_data [vals];
                             "vert" := PyBool false ]}]
           ++ match bodies with
              | [] => []
              | body :: _ => [scatter_of uniform 0 vals body]
              end,
       Ok out) ∧
    bp_kw !! "labels" = Some (py_labels [col]) ∧
    bp_kw !! "x" = Some (py_data [vals]) ∧
    raincloud_cloud out
    = match bodies with
      | [] => []
      | body :: rest => half_violin 0 1 body :: rest
      end ∧
    (raincloud_scats out).*1 = match bodies with [] => [] | _ => [0] end.
Proof.
  intros Hv bodies.
  assert (extract_groups df col None GO_None false = Ok ([col], [vals])) as He.
  { simpl. unfold column, getitem. by rewrite Hv. }
  assert (get_scalars SC_None [col] [vals] = Ok [1%Qc]) as Hs by done.
  destruct (pyplot_raincloud_loop_calls uniform df col ax None GO_None false
              SC_None false KW_None KW_None log [col] [vals] [1%Qc] _ _
              He Hs eq_refl eq_refl)
    as (calls & scats & Hrun & Hcalls & Hkeys & Hlook).
  fold bodies in Hrun, Hcalls, Hkeys, Hlook.
  eexists _, _. rewrite Hrun. split.
  { do 2 f_equal. f_equal. destruct bodies as [|body rest].
    - by destruct calls.
    - destruct (Hlook 0 1%Qc body eq_refl eq_refl) as (data & [= <-] & Hc & _).
      destruct calls as [|c [|c' calls]]; simplify_eq/=. done. }
  split; [reflexivity|]. split; [reflexivity|]. simpl. split.
  - by destruct bodies.
  - rewrite Hkeys. by destruct bodies.
Qed.

Lemma default_raincloud_call_witness :
  ∃ bp_kw out,
    pyplot_raincloud no_jitter example_table "v" sample_axes None GO_None false
      SC_None false KW_None KW_None []
    = ([Boxplot bp_kw;
        Violinplot {[ "dataset" := py_data [[qz 1; qz 2; qz 3; qz 4; qz 5]];
                      "vert" := PyBool false ]};
        scatter_of no_jitter 0 [qz 1; qz 2; qz 3; qz 4; qz 5] (sample_body 1)],
       Ok out) ∧
    raincloud_cloud out = [half_violin 0 1 (sample_body 1); sample_body 2].
Proof.
  destruct (default_raincloud_call no_jitter example_table "v" sample_axes
              [qz 1; qz 2; qz 3; qz 4; qz 5] [])
    as (bp_kw & out & Hrun & _ & _ & Hcloud & _).
  - vm_compute. reflexivity.
  - exists bp_kw, out. split; [exact Hrun | exact Hcloud].
Defined.
